(** * Maetopia: the layer store, its undo/redo history and the canvas renderer

    A shallow embedding of [src/hooks/useCanvas.ts] (the [useCanvas] hook:
    layer collection, selection, bounded undo/redo log) and of the
    [renderLayers] pass of the [CityCanvas] component.

    Conventions of the embedding.
    - A call of one of the hook's functions is taken on the closure of the
      latest render: the values it captures ([layers], [historyIndex],
      [selectedLayerId], ...) are those of the state it is applied to, and
      the state it yields is the one React renders next, after every queued
      [setState] of the call has been applied in order.
    - A sequence of calls is taken call by call ([runAll],
      [reachedCallByCall]): each call is made from the render that follows
      the previous call, as when each call has an event handler of its own.
      A handler that makes several calls holds the closures of one render
      for all of them; [addLayerOn], [undoOn] and [redoOn] are the functions
      as they act then, and the statements about sequences say which of the
      two is meant.
    - [Date.now()] is an input of the operations that read the clock.
    - The callbacks [onChange] / [onLayerSelect] belong to the embedding
      application and leave the hook's state alone; they are not represented.
    - JavaScript numbers that the code only stores and copies (coordinates,
      scale, rotation, opacity) are rationals compared structurally; [zIndex],
      [version], array indices and clock readings are integers.
    - For [renderLayers] the component is mounted and ready ([appRef.current]
      is set), and the stage is described by the sprites that [renderLayers]
      itself adds to it. *)

From Stdlib Require Import ZArith QArith.
From stdpp Require Import base decidable option numbers list sorting gmap strings pretty.

Local Close Scope Q_scope.
Local Open Scope Z_scope.

(** ** Data model ([CityCanvas.tsx], [useCanvas.ts]) *)

Record Position := { x : Q; y : Q }.

(** [interface Layer]; [rotation] is the optional property [rotation?]. *)
Record Layer := {
  id : string;
  type : string;
  position : Position;
  scale : Q;
  rotation : option Q;
  opacity : Q;
  zIndex : Z;
  locked : bool;
  visible : bool;
  version : Z;
  texturePath : string;
}.

(** [Omit<Layer, 'id'>], the argument of [addLayer]. *)
Record LayerWithoutId := {
  w_type : string;
  w_position : Position;
  w_scale : Q;
  w_rotation : option Q;
  w_opacity : Q;
  w_zIndex : Z;
  w_locked : bool;
  w_visible : bool;
  w_version : Z;
  w_texturePath : string;
}.

(** [Partial<Layer>]: every property may be absent ([None]). *)
Record PartialLayer := {
  p_id : option string;
  p_type : option string;
  p_position : option Position;
  p_scale : option Q;
  p_rotation : option Q;
  p_opacity : option Q;
  p_zIndex : option Z;
  p_locked : option bool;
  p_visible : option bool;
  p_version : option Z;
  p_texturePath : option string;
}.

Definition emptyPartial : PartialLayer :=
  {| p_id := None; p_type := None; p_position := None; p_scale := None;
     p_rotation := None; p_opacity := None; p_zIndex := None;
     p_locked := None; p_visible := None; p_version := None;
     p_texturePath := None |}.

(** A [Layer] object read at type [Partial<Layer>]: its own properties, so
    [rotation] is listed only when the layer has one. *)
Definition asPartial (l : Layer) : PartialLayer :=
  {| p_id := Some (id l); p_type := Some (type l);
     p_position := Some (position l); p_scale := Some (scale l);
     p_rotation := rotation l; p_opacity := Some (opacity l);
     p_zIndex := Some (zIndex l); p_locked := Some (locked l);
     p_visible := Some (visible l); p_version := Some (version l);
     p_texturePath := Some (texturePath l) |}.

(** The object spread [{ ...layer, ...updates }]: a property listed in
    [updates] replaces the layer's, the others are kept. *)
Definition spread (l : Layer) (u : PartialLayer) : Layer :=
  {| id := default (id l) (p_id u);
     type := default (type l) (p_type u);
     position := default (position l) (p_position u);
     scale := default (scale l) (p_scale u);
     rotation := match p_rotation u with Some r => Some r | None => rotation l end;
     opacity := default (opacity l) (p_opacity u);
     zIndex := default (zIndex l) (p_zIndex u);
     locked := default (locked l) (p_locked u);
     visible := default (visible l) (p_visible u);
     version := default (version l) (p_version u);
     texturePath := default (texturePath l) (p_texturePath u) |}.

(** [{ ...newLayer, id } as Layer] *)
Definition withId (w : LayerWithoutId) (i : string) : Layer :=
  {| id := i; type := w_type w; position := w_position w; scale := w_scale w;
     rotation := w_rotation w; opacity := w_opacity w; zIndex := w_zIndex w;
     locked := w_locked w; visible := w_visible w; version := w_version w;
     texturePath := w_texturePath w |}.

(** [{ ...layer, zIndex: index }] *)
Definition withZIndex (l : Layer) (z : Z) : Layer :=
  {| id := id l; type := type l; position := position l; scale := scale l;
     rotation := rotation l; opacity := opacity l; zIndex := z;
     locked := locked l; visible := visible l; version := version l;
     texturePath := texturePath l |}.

(** [{ ...layer, position }] *)
Definition withPosition (l : Layer) (p : Position) : Layer :=
  {| id := id l; type := type l; position := p; scale := scale l;
     rotation := rotation l; opacity := opacity l; zIndex := zIndex l;
     locked := locked l; visible := visible l; version := version l;
     texturePath := texturePath l |}.

(** The objects stored in [before] / [after] of a history action. Their
    declared type is [Partial<Layer> | null]; the code stores either an object
    with layer properties (a whole layer, or [{ position }]) or, through the
    same field, the bulk object [{ layers: [...] }]. *)
Inductive Snapshot :=
  | SnapFields (p : PartialLayer)
  | SnapLayers (ls : list Layer).

Inductive ActionType := Add | Remove | Update | Move | Reorder.

(** [type HistoryAction]; [atype] is its [type] property, [None] an absent
    / undefined property. *)
Record HistoryAction := {
  atype : ActionType;
  layerId : option string;
  before : option Snapshot;
  after : option Snapshot;
  timestamp : Z;
}.

(** [Omit<HistoryAction, 'timestamp'>], the argument of [addHistoryAction]. *)
Record UntimedAction := {
  u_type : ActionType;
  u_layerId : option string;
  u_before : option Snapshot;
  u_after : option Snapshot;
}.

(** [{ ...action, timestamp: Date.now() }] *)
Definition stamp (a : UntimedAction) (now : Z) : HistoryAction :=
  {| atype := u_type a; layerId := u_layerId a; before := u_before a;
     after := u_after a; timestamp := now |}.

Definition MAX_HISTORY_SIZE : Z := 20.

(** The state cells of the hook: four [useState] cells and the ref
    [isUndoRedoInProgress] ([mapPoints] is independent of all the others and
    is left out). *)
Record State := {
  layers : list Layer;
  selectedLayerId : option string;
  history : list HistoryAction;
  historyIndex : Z;
  isBatchingActions : bool;
  isUndoRedoInProgress : bool;
}.

Definition initialState (initialLayers : list Layer) : State :=
  {| layers := initialLayers; selectedLayerId := None; history := [];
     historyIndex := -1; isBatchingActions := false;
     isUndoRedoInProgress := false |}.

Definition setLayers (ls : list Layer) (s : State) : State :=
  {| layers := ls; selectedLayerId := selectedLayerId s;
     history := history s; historyIndex := historyIndex s;
     isBatchingActions := isBatchingActions s;
     isUndoRedoInProgress := isUndoRedoInProgress s |}.

Definition setSelectedLayerId (o : option string) (s : State) : State :=
  {| layers := layers s; selectedLayerId := o;
     history := history s; historyIndex := historyIndex s;
     isBatchingActions := isBatchingActions s;
     isUndoRedoInProgress := isUndoRedoInProgress s |}.

Definition setHistory (h : list HistoryAction) (s : State) : State :=
  {| layers := layers s; selectedLayerId := selectedLayerId s;
     history := h; historyIndex := historyIndex s;
     isBatchingActions := isBatchingActions s;
     isUndoRedoInProgress := isUndoRedoInProgress s |}.

Definition setHistoryIndex (i : Z) (s : State) : State :=
  {| layers := layers s; selectedLayerId := selectedLayerId s;
     history := history s; historyIndex := i;
     isBatchingActions := isBatchingActions s;
     isUndoRedoInProgress := isUndoRedoInProgress s |}.

Definition setIsBatchingActions (b : bool) (s : State) : State :=
  {| layers := layers s; selectedLayerId := selectedLayerId s;
     history := history s; historyIndex := historyIndex s;
     isBatchingActions := b;
     isUndoRedoInProgress := isUndoRedoInProgress s |}.

Definition setUndoRedoInProgress (b : bool) (s : State) : State :=
  {| layers := layers s; selectedLayerId := selectedLayerId s;
     history := history s; historyIndex := historyIndex s;
     isBatchingActions := isBatchingActions s;
     isUndoRedoInProgress := b |}.

(** ** JavaScript array and value primitives used by the hook *)

(** Relative index of [Array.prototype.slice]: negative counts from the end,
    and the result is clamped to [0, len]. *)
Definition relIndex (len k : Z) : Z :=
  if k <? 0 then Z.max (len + k) 0 else Z.min k len.

(** [arr.slice(start, end)] *)
Definition slice {A} (l : list A) (from to : Z) : list A :=
  let len := Z.of_nat (length l) in
  let k := relIndex len from in
  let f := relIndex len to in
  take (Z.to_nat (f - k)) (drop (Z.to_nat k) l).

(** [arr.slice(start)] *)
Definition sliceFrom {A} (l : list A) (from : Z) : list A :=
  slice l from (Z.of_nat (length l)).

(** [arr[i]] for an integer [i]: [None] is [undefined]. *)
Definition at_index {A} (l : list A) (i : Z) : option A :=
  if i <? 0 then None else l !! Z.to_nat i.

(** [arr.find(layer => layer.id === i)] *)
Definition findById (i : string) (ls : list Layer) : option Layer :=
  snd <$> list_find (λ l, id l = i) ls.

(** [arr.filter(layer => layer.id !== i)] *)
Definition removeId (i : string) (ls : list Layer) : list Layer :=
  filter (λ l, id l ≠ i) ls.

(** Truthiness of an optional string: [undefined], [null] and the empty
    string are falsy. *)
Definition truthy (o : option string) : bool :=
  match o with
  | Some s => if decide (s = ""%string) then false else true
  | None => false
  end.

(** [`layer_${Date.now()}`] *)
Definition layerIdAt (now : Z) : string := "layer_"%string +:+ pretty now.

Definition ids (ls : list Layer) : list string := id <$> ls.

(** ** The hook's derived values *)

(** [selectedLayerId ? layers.find(l => l.id === selectedLayerId) || null : null] *)
Definition selectedLayer (s : State) : option Layer :=
  match selectedLayerId s with
  | Some i => if truthy (Some i) then findById i (layers s) else None
  | None => None
  end.

Definition canUndo (s : State) : bool := 0 <=? historyIndex s.

Definition canRedo (s : State) : bool :=
  historyIndex s <? Z.of_nat (length (history s)) - 1.

(** ** HistoryManager: recording *)

(** [handleLayerChange(newLayers)]: [setLayers(newLayers)], then the
    notification of [onChange]. *)
Definition handleLayerChange (newLayers : list Layer) (s : State) : State :=
  setLayers newLayers s.

(** [addHistoryAction(action)], the clock reading [now] being its
    [Date.now()]. *)
Definition addHistoryAction (action : UntimedAction) (now : Z) (s : State) : State :=
  if isUndoRedoInProgress s || isBatchingActions s then s
  else
    let newHistory := slice (history s) 0 (historyIndex s + 1) in
    let updatedHistory := newHistory ++ [stamp action now] in
    let len := Z.of_nat (length updatedHistory) in
    let limited :=
      if MAX_HISTORY_SIZE <? len
      then sliceFrom updatedHistory (len - MAX_HISTORY_SIZE)
      else updatedHistory in
    setHistoryIndex (Z.min (historyIndex s + 1) (MAX_HISTORY_SIZE - 1))
      (setHistory limited s).

Definition startBatch (s : State) : State := setIsBatchingActions true s.
Definition endBatch (s : State) : State := setIsBatchingActions false s.

(** ** LayerStore: the mutators *)

(** [addLayer(newLayer)]; [now] is the clock reading that names the layer,
    [now'] the one that stamps the history action. Returns the new id. *)
Definition addLayer (newLayer : LayerWithoutId) (now now' : Z) (s : State)
  : string * State :=
  let i := layerIdAt now in
  let layer := withId newLayer i in
  let s1 := setLayers (layers s ++ [layer]) s in
  let s2 := addHistoryAction
    {| u_type := Add; u_layerId := Some i; u_before := None;
       u_after := Some (SnapFields (asPartial layer)) |} now' s1 in
  (i, handleLayerChange (layers s ++ [layer]) s2).

(** [removeLayer(id)] *)
Definition removeLayer (i : string) (now : Z) (s : State) : State :=
  match findById i (layers s) with
  | None => s
  | Some layerToRemove =>
    let updated := removeId i (layers s) in
    let s1 := setLayers updated (handleLayerChange updated s) in
    let s2 := addHistoryAction
      {| u_type := Remove; u_layerId := Some i;
         u_before := Some (SnapFields (asPartial layerToRemove));
         u_after := None |} now s1 in
    if decide (selectedLayerId s = Some i) then setSelectedLayerId None s2 else s2
  end.

(** [updateLayer(id, updates)] *)
Definition updateLayer (i : string) (updates : PartialLayer) (now : Z) (s : State)
  : State :=
  match findById i (layers s) with
  | None => s
  | Some layerToUpdate =>
    let updated :=
      (λ layer, if decide (id layer = i) then spread layer updates else layer)
        <$> layers s in
    let s1 := setLayers updated (handleLayerChange updated s) in
    addHistoryAction
      {| u_type := Update; u_layerId := Some i;
         u_before := Some (SnapFields (asPartial layerToUpdate));
         u_after := Some (SnapFields (asPartial (spread layerToUpdate updates))) |}
      now s1
  end.

(** [{ position }], the snapshot object of a move. *)
Definition positionOnly (p : Position) : PartialLayer :=
  {| p_id := None; p_type := None; p_position := Some p; p_scale := None;
     p_rotation := None; p_opacity := None; p_zIndex := None;
     p_locked := None; p_visible := None; p_version := None;
     p_texturePath := None |}.

(** [moveLayer(id, position)] *)
Definition moveLayer (i : string) (pos : Position) (now : Z) (s : State) : State :=
  match findById i (layers s) with
  | None => s
  | Some layerToMove =>
    let updated :=
      (λ layer, if decide (id layer = i) then withPosition layer pos else layer)
        <$> layers s in
    let s1 := setLayers updated (handleLayerChange updated s) in
    addHistoryAction
      {| u_type := Move; u_layerId := Some i;
         u_before := Some (SnapFields (positionOnly (position layerToMove)));
         u_after := Some (SnapFields (positionOnly pos)) |}
      now s1
  end.

(** [new Map(layers.map(layer => [layer.id, layer]))]: entries are set in
    order, so the last layer with a given id is the one kept. *)
Definition layerMapOf (ls : list Layer) : gmap string Layer :=
  foldl (λ m layer, <[id layer := layer]> m) ∅ ls.

(** The new array built by [reorderLayers]:
    [orderedIds.map((id, index) => ...).filter(layer => layer !== null)]. *)
Definition reordered (layerMap : gmap string Layer) (orderedIds : list string)
  : list Layer :=
  omap (λ o : option Layer, o)
    (imap (λ index i,
             match layerMap !! i with
             | Some layer => Some (withZIndex layer (Z.of_nat index))
             | None => None
             end) orderedIds).

(** [reorderLayers(orderedIds)] *)
Definition reorderLayers (orderedIds : list string) (now : Z) (s : State) : State :=
  let layerMap := layerMapOf (layers s) in
  let oldLayers := layers s in
  let updated := reordered layerMap orderedIds in
  let s1 := setLayers updated (handleLayerChange updated s) in
  addHistoryAction
    {| u_type := Reorder; u_layerId := None;
       u_before := Some (SnapLayers oldLayers);
       u_after := Some (SnapLayers
         (imap (λ index layer, withZIndex layer (Z.of_nat index)) (layers s))) |}
    now s1.

(** [selectLayer(id)] *)
Definition selectLayer (o : option string) (s : State) : State :=
  setSelectedLayerId o s.

(** [clearLayers()] *)
Definition clearLayers (now : Z) (s : State) : State :=
  let oldLayers := layers s in
  let s1 := setSelectedLayerId None (handleLayerChange [] (setLayers [] s)) in
  addHistoryAction
    {| u_type := Remove; u_layerId := None;
       u_before := Some (SnapLayers oldLayers); u_after := None |}
    now s1.

(** ** HistoryManager: replay *)

(** [{ ...layer, ...snapshot }]. The bulk object [{ layers }] has no layer
    property, so spreading it leaves every property of the layer as it was. *)
Definition spreadSnapshot (l : Layer) (b : Snapshot) : Layer :=
  match b with
  | SnapFields p => spread l p
  | SnapLayers _ => l
  end.

(** [snapshot as Layer]. The cast is unchecked; its result is a [Layer] when
    the object lists every required property, which holds for the objects
    that [addLayer] and [removeLayer] store. *)
Definition asLayer (b : Snapshot) : option Layer :=
  match b with
  | SnapFields p =>
    i ← p_id p; t ← p_type p; pos ← p_position p; sc ← p_scale p;
    op ← p_opacity p; z ← p_zIndex p; lk ← p_locked p; vis ← p_visible p;
    ver ← p_version p; tex ← p_texturePath p;
    Some {| id := i; type := t; position := pos; scale := sc;
            rotation := p_rotation p; opacity := op; zIndex := z;
            locked := lk; visible := vis; version := ver;
            texturePath := tex |}
  | SnapLayers _ => None
  end.

(** What a call of [undo] or [redo] leaves behind. *)
Inductive Outcome :=
  | Returned (s : State)
    (** normal return *)
  | Threw (s : State)
    (** [history[...]] was [undefined], reading [action.type] raised a
        [TypeError]; [s] is the state after the [finally] block *)
  | Untyped
    (** the call would append to the collection, through [as Layer], an
        object that is not a layer *).

(** The layer collection after the [switch] of [undo], [None] when the
    appended object is not a layer. *)
Definition undoLayers (action : HistoryAction) (prev : list Layer)
  : option (list Layer) :=
  match atype action with
  | Add =>
    match layerId action with
    | Some i => if truthy (Some i) then Some (removeId i prev) else Some prev
    | None => Some prev
    end
  | Remove =>
    match before action, layerId action with
    | Some b, Some i =>
      if truthy (Some i) then l ← asLayer b; Some (prev ++ [l]) else Some prev
    | _, _ => Some prev
    end
  | Update | Move =>
    match before action, layerId action with
    | Some b, Some i =>
      if truthy (Some i)
      then Some ((λ layer, if decide (id layer = i)
                            then spreadSnapshot layer b else layer) <$> prev)
      else Some prev
    | _, _ => Some prev
    end
  | Reorder =>
    match before action with
    | Some (SnapLayers ls) => Some ls
    | _ => Some prev
    end
  end.

(** [undo()] *)
Definition undo (s : State) : Outcome :=
  if historyIndex s <? 0 then Returned s
  else
    let finally s' :=
      setHistoryIndex (historyIndex s - 1) (setUndoRedoInProgress false s') in
    match at_index (history s) (historyIndex s) with
    | None => Threw (finally (setUndoRedoInProgress true s))
    | Some action =>
      match undoLayers action (layers s) with
      | Some ls =>
        Returned (finally (handleLayerChange ls (setUndoRedoInProgress true s)))
      | None => Untyped
      end
    end.

(** The layer collection after the [switch] of [redo]. *)
Definition redoLayers (action : HistoryAction) (prev : list Layer)
  : option (list Layer) :=
  match atype action with
  | Add =>
    match after action with
    | Some a => l ← asLayer a; Some (prev ++ [l])
    | None => Some prev
    end
  | Remove =>
    match layerId action with
    | Some i => if truthy (Some i) then Some (removeId i prev) else Some prev
    | None => Some prev
    end
  | Update | Move =>
    match after action, layerId action with
    | Some a, Some i =>
      if truthy (Some i)
      then Some ((λ layer, if decide (id layer = i)
                            then spreadSnapshot layer a else layer) <$> prev)
      else Some prev
    | _, _ => Some prev
    end
  | Reorder =>
    match after action with
    | Some (SnapLayers ls) => Some ls
    | _ => Some prev
    end
  end.

(** [redo()] *)
Definition redo (s : State) : Outcome :=
  if Z.of_nat (length (history s)) - 1 <=? historyIndex s then Returned s
  else
    let finally s' :=
      setHistoryIndex (historyIndex s + 1) (setUndoRedoInProgress false s') in
    match at_index (history s) (historyIndex s + 1) with
    | None => Threw (finally (setUndoRedoInProgress true s))
    | Some action =>
      match redoLayers action (layers s) with
      | Some ls =>
        Returned (finally (handleLayerChange ls (setUndoRedoInProgress true s)))
      | None => Untyped
      end
    end.

(** ** The public operations as a transition system *)

Inductive Op :=
  | OpAddLayer (newLayer : LayerWithoutId) (now now' : Z)
  | OpRemoveLayer (i : string) (now : Z)
  | OpUpdateLayer (i : string) (updates : PartialLayer) (now : Z)
  | OpMoveLayer (i : string) (pos : Position) (now : Z)
  | OpReorderLayers (orderedIds : list string) (now : Z)
  | OpSelectLayer (o : option string)
  | OpClearLayers (now : Z)
  | OpUndo
  | OpRedo
  | OpStartBatch
  | OpEndBatch.

Definition run (op : Op) (s : State) : Outcome :=
  match op with
  | OpAddLayer w now now' => Returned (addLayer w now now' s).2
  | OpRemoveLayer i now => Returned (removeLayer i now s)
  | OpUpdateLayer i u now => Returned (updateLayer i u now s)
  | OpMoveLayer i pos now => Returned (moveLayer i pos now s)
  | OpReorderLayers l now => Returned (reorderLayers l now s)
  | OpSelectLayer o => Returned (selectLayer o s)
  | OpClearLayers now => Returned (clearLayers now s)
  | OpUndo => undo s
  | OpRedo => redo s
  | OpStartBatch => Returned (startBatch s)
  | OpEndBatch => Returned (endBatch s)
  end.

(** The state a call leaves, whether it returned or threw. *)
Definition stateOf (o : Outcome) : option State :=
  match o with
  | Returned s | Threw s => Some s
  | Untyped => None
  end.

(** The states reached call by call: every call is made from the closures
    of the render that follows the previous call (one call per render).
    These are not all the states of the hook: calls made from one and the
    same render reach others (see [addLayerOn], [undoOn]). *)
Inductive reachedCallByCall : State → Prop :=
  | callByCall_init initialLayers : reachedCallByCall (initialState initialLayers)
  | callByCall_step op s s' :
      reachedCallByCall s → stateOf (run op s) = Some s' →
      reachedCallByCall s'.

(** A run call by call: each call is made from the render that follows the
    call before it. *)
Fixpoint runAll (ops : list Op) (s : State) : option State :=
  match ops with
  | [] => Some s
  | op :: rest => s' ← stateOf (run op s); runAll rest s'
  end.

(** ** Several calls from one render

    The functions that an event handler holds are the closures of one
    render [r]. When the handler calls several of them, every call reads
    [layers], [history], [historyIndex] and [isBatchingActions] of [r],
    while the updater functions that it passes to [setLayers], [setHistory]
    and [setHistoryIndex] run, in the order of the calls, on the value left
    by the updates queued before them: the state [p]. The ref
    [isUndoRedoInProgress] is not a state cell; it is read and written at
    once. For [r] = [p] these are the functions above.

    The [setLayers(updated)] that [handleLayerChange] issues from inside an
    updater of [undo] or [redo] sets the value that the updater returns.
    [undoOn] and [redoOn] are used below for handlers whose last update of
    [layers] comes from such an updater, so that this value is the
    collection rendered next. *)

(** [addHistoryAction(action)] from the closures of [r]: the guard reads
    [isBatchingActions] of [r], the cut [prev.slice(0, historyIndex + 1)]
    the [historyIndex] of [r]. *)
Definition addHistoryActionOn (r : State) (action : UntimedAction) (now : Z)
    (p : State) : State :=
  if isUndoRedoInProgress p || isBatchingActions r then p
  else
    let newHistory := slice (history p) 0 (historyIndex r + 1) in
    let updatedHistory := newHistory ++ [stamp action now] in
    let len := Z.of_nat (length updatedHistory) in
    let limited :=
      if MAX_HISTORY_SIZE <? len
      then sliceFrom updatedHistory (len - MAX_HISTORY_SIZE)
      else updatedHistory in
    setHistoryIndex (Z.min (historyIndex p + 1) (MAX_HISTORY_SIZE - 1))
      (setHistory limited p).

(** [addLayer(newLayer)] from the closures of [r]: the updater appends to
    the queued collection, and [handleLayerChange([...layers, layer])] then
    sets the collection of [r] with the layer appended. *)
Definition addLayerOn (r : State) (newLayer : LayerWithoutId) (now now' : Z)
    (p : State) : string * State :=
  let i := layerIdAt now in
  let layer := withId newLayer i in
  let p1 := setLayers (layers p ++ [layer]) p in
  let p2 := addHistoryActionOn r
    {| u_type := Add; u_layerId := Some i; u_before := None;
       u_after := Some (SnapFields (asPartial layer)) |} now' p1 in
  (i, handleLayerChange (layers r ++ [layer]) p2).

(** [undo()] from the closures of [r]: the test and [history[historyIndex]]
    read [r]; the updaters act on the queued collection and cursor. *)
Definition undoOn (r p : State) : Outcome :=
  if historyIndex r <? 0 then Returned p
  else
    let finally p' :=
      setHistoryIndex (historyIndex p' - 1) (setUndoRedoInProgress false p') in
    match at_index (history r) (historyIndex r) with
    | None => Threw (finally (setUndoRedoInProgress true p))
    | Some action =>
      match undoLayers action (layers p) with
      | Some ls =>
        Returned (finally (handleLayerChange ls (setUndoRedoInProgress true p)))
      | None => Untyped
      end
    end.

(** [redo()] from the closures of [r]. *)
Definition redoOn (r p : State) : Outcome :=
  if Z.of_nat (length (history r)) - 1 <=? historyIndex r then Returned p
  else
    let finally p' :=
      setHistoryIndex (historyIndex p' + 1) (setUndoRedoInProgress false p') in
    match at_index (history r) (historyIndex r + 1) with
    | None => Threw (finally (setUndoRedoInProgress true p))
    | Some action =>
      match redoLayers action (layers p) with
      | Some ls =>
        Returned (finally (handleLayerChange ls (setUndoRedoInProgress true p)))
      | None => Untyped
      end
    end.

(** [addLayer] called once for each clock reading of [clock], all the calls
    from the closures of [r]. *)
Definition addLayersOn (r : State) (newLayer : LayerWithoutId)
    (clock : list Z) : State :=
  foldl (λ p now, (addLayerOn r newLayer now now p).2) r clock.

(** ** RenderSynchronizer: [renderLayers] of [CityCanvas]

    [renderLayers] is an [async] function. It runs without interruption up to
    an [await PIXI.Assets.load(...)], where it is suspended until the load
    settles, and several calls may be suspended at the same time. The
    embedding is a transition system on the rendering surface whose steps are
    these uninterrupted segments: the start of a pass (the debounced call
    fires) and the settlement of the load a suspended pass waits for. *)

(** A loaded [PIXI.Texture], known by the path it was loaded from. *)
Record Texture := { source : string }.

(** A [PIXI.Sprite] as [renderLayers] configures it. [handle] is the
    identity of the object ([new PIXI.Sprite] makes a new one each time);
    [pointerdown] is the layer that the registered handler reports, [None]
    when no handler is registered. *)
Record Sprite := {
  handle : nat;
  ofLayer : string;
  texture : Texture;
  sp_position : Position;
  sp_scale : Q;
  sp_rotation : Q;
  alpha : Q;
  interactive : bool;
  cursor : string;
  pointerdown : option Layer;
}.

(** A pass suspended at [await PIXI.Assets.load(layer.texturePath)]: the
    layer of the current iteration and the layers still to come. *)
Record Pass := { awaiting : Layer; remaining : list Layer }.

(** The rendering surface and the component's refs: the sprites that are
    children of the stage, in the order of their insertion; [layersRef];
    [textureCache]; the next fresh object identity; the suspended passes in
    the order of their start. *)
Record Surface := {
  stage : list Sprite;
  layersRef : gmap string Sprite;
  textureCache : gmap string Texture;
  nextHandle : nat;
  pending : list Pass;
}.

Definition blankSurface : Surface :=
  {| stage := []; layersRef := ∅; textureCache := ∅; nextHandle := 0%nat;
     pending := [] |}.

(** The sprite built by one iteration for [layer] from [tex].
    [layer.rotation || 0] is the rotation when the layer has one and 0
    otherwise (a rotation of 0 is falsy and gives 0 as well). *)
Definition makeSprite (h : nat) (layer : Layer) (tex : Texture) : Sprite :=
  {| handle := h; ofLayer := id layer; texture := tex;
     sp_position := position layer; sp_scale := scale layer;
     sp_rotation := default (0 # 1)%Q (rotation layer);
     alpha := opacity layer;
     interactive := negb (locked layer);
     cursor := if locked layer then "default"%string else "pointer"%string;
     pointerdown := if locked layer then None else Some layer |}.

(** The body of an iteration once the texture is at hand: create the sprite,
    [stage.addChild(sprite)], [layersRef.current.set(layer.id, sprite)]. *)
Definition addSprite (layer : Layer) (tex : Texture) (w : Surface) : Surface :=
  let sprite := makeSprite (nextHandle w) layer tex in
  {| stage := stage w ++ [sprite];
     layersRef := <[id layer := sprite]> (layersRef w);
     textureCache := textureCache w;
     nextHandle := S (nextHandle w);
     pending := pending w |}.

(** The [for] loop from a given iteration on, up to the next [await] or to
    the end of the list: the surface it leaves and the suspended pass, if
    any. *)
Fixpoint renderLoop (sortedLayers : list Layer) (w : Surface)
  : Surface * option Pass :=
  match sortedLayers with
  | [] => (w, None)
  | layer :: rest =>
    if visible layer then
      match textureCache w !! texturePath layer with
      | Some tex => renderLoop rest (addSprite layer tex w)
      | None => (w, Some {| awaiting := layer; remaining := rest |})
      end
    else renderLoop rest w
  end.

(** [layersRef.current.forEach(o => o.parent?.removeChild(o))] followed by
    [layersRef.current.clear()]: the sprites held by [layersRef] leave the
    stage. *)
Definition clearSprites (w : Surface) : Surface :=
  {| stage :=
       filter (λ sp, ∀ k o, layersRef w !! k = Some o → handle o ≠ handle sp)
         (stage w);
     layersRef := ∅;
     textureCache := textureCache w;
     nextHandle := nextHandle w;
     pending := pending w |}.

(** Insertion into a list sorted by [zIndex], before the first layer whose
    [zIndex] is not smaller. *)
Fixpoint insertByZIndex (a : Layer) (l : list Layer) : list Layer :=
  match l with
  | [] => [a]
  | b :: l' =>
    if zIndex a <=? zIndex b then a :: b :: l' else b :: insertByZIndex a l'
  end.

(** [[...layers].sort((a, b) => a.zIndex - b.zIndex)]: ascending [zIndex],
    layers of equal [zIndex] in their order in [layers] (the sort of
    [Array.prototype.sort] is stable). *)
Definition sortByZIndex (ls : list Layer) : list Layer :=
  foldr insertByZIndex [] ls.

Definition suspend (o : option Pass) (w : Surface) : Surface :=
  {| stage := stage w; layersRef := layersRef w;
     textureCache := textureCache w; nextHandle := nextHandle w;
     pending := pending w ++ match o with Some p => [p] | None => [] end |}.

Definition dropPending (k : nat) (w : Surface) : Surface :=
  {| stage := stage w; layersRef := layersRef w;
     textureCache := textureCache w; nextHandle := nextHandle w;
     pending := delete k (pending w) |}.

Definition cacheTexture (path : string) (tex : Texture) (w : Surface) : Surface :=
  {| stage := stage w; layersRef := layersRef w;
     textureCache := <[path := tex]> (textureCache w);
     nextHandle := nextHandle w; pending := pending w |}.

(** The start of a pass on the snapshot [layers]: from the call of
    [renderLayers] to its first [await] or its end. *)
Definition startPass (snapshot : list Layer) (w : Surface) : Surface :=
  let '(w', o) := renderLoop (sortByZIndex snapshot) (clearSprites w) in
  suspend o w'.

(** The load awaited by the [k]-th suspended pass settles. Resolved: the
    texture enters the cache, the sprite of the waiting layer is added and
    the loop goes on. Rejected: the [catch] block logs and the loop goes on
    with the next layer. *)
Definition settleLoad (k : nat) (resolved : bool) (w : Surface) : Surface :=
  match pending w !! k with
  | None => w
  | Some p =>
    let w0 := dropPending k w in
    let w1 :=
      if resolved then
        let tex := {| source := texturePath (awaiting p) |} in
        addSprite (awaiting p) tex (cacheTexture (texturePath (awaiting p)) tex w0)
      else w0 in
    let '(w2, o) := renderLoop (remaining p) w1 in
    suspend o w2
  end.

Inductive RenderEvent :=
  | PassStarts (snapshot : list Layer)
  | LoadResolves (k : nat)
  | LoadRejects (k : nat).

Definition renderStep (w : Surface) (e : RenderEvent) : Surface :=
  match e with
  | PassStarts snapshot => startPass snapshot w
  | LoadResolves k => settleLoad k true w
  | LoadRejects k => settleLoad k false w
  end.

Definition renderTrace (events : list RenderEvent) (w : Surface) : Surface :=
  foldl renderStep w events.

(** A sprite without its object identity. *)
Definition anonymous (sp : Sprite) : Sprite :=
  {| handle := 0%nat; ofLayer := ofLayer sp; texture := texture sp;
     sp_position := sp_position sp; sp_scale := sp_scale sp;
     sp_rotation := sp_rotation sp; alpha := alpha sp;
     interactive := interactive sp; cursor := cursor sp;
     pointerdown := pointerdown sp |}.

(** What the surface shows: the sprites of the stage, in paint order,
    without their object identities. *)
Definition shown (w : Surface) : list Sprite := anonymous <$> stage w.

(** What a pass on [snapshot] is to show when all its textures load: one
    sprite per visible layer, in ascending [zIndex] order. *)
Definition rendering (snapshot : list Layer) : list Sprite :=
  (λ layer, makeSprite 0 layer {| source := texturePath layer |})
    <$> filter (λ layer, visible layer = true) (sortByZIndex snapshot).

(** A pass on [snapshot] that runs alone: it starts, and the loads it awaits
    resolve one after the other with no other pass in between. *)
Definition passAlone (snapshot : list Layer) (loads : nat) : list RenderEvent :=
  PassStarts snapshot :: replicate loads (LoadResolves 0).

(** Every sprite of the stage is the one [layersRef] holds for its layer, so
    that the next pass removes it. *)
Definition tracked (w : Surface) : Prop :=
  ∀ sp, sp ∈ stage w → layersRef w !! ofLayer sp = Some sp.

(** Every cached texture is the one loaded from its key. *)
Definition cacheCoherent (w : Surface) : Prop :=
  ∀ path tex, textureCache w !! path = Some tex → tex = {| source := path |}.

(** The sprite shown for [layer] once its texture is loaded. *)
Definition spriteOf (layer : Layer) : Sprite :=
  makeSprite 0 layer {| source := texturePath layer |}.

(** The layers a suspended pass has still to render. *)
Definition leftToRender (o : option Pass) : list Layer :=
  match o with
  | Some p => awaiting p :: remaining p
  | None => []
  end.

(** Passes that take turns: each one runs alone and has finished (no pass is
    suspended) when the next one starts. A pass is given by its snapshot and
    the number of loads it waits for. *)
Fixpoint inTurn (passes : list (list Layer * nat)) (w : Surface) : Prop :=
  match passes with
  | [] => True
  | p :: rest =>
    let w' := renderTrace (passAlone p.1 p.2) w in
    pending w' = [] ∧ NoDup (ids p.1) ∧ inTurn rest w'
  end.

Definition tracesOf (passes : list (list Layer * nat)) : list RenderEvent :=
  mjoin ((λ p, passAlone p.1 p.2) <$> passes).

(** ** Auxiliary notions used in the statements *)

(** The last [n] elements of a list (the whole list when it is shorter). *)
Definition lastN {A} (n : nat) (l : list A) : list A :=
  drop (length l - n) l.

(** The cursor is a position of the log or [-1]. *)
Definition cursorOk (s : State) : Prop :=
  -1 ≤ historyIndex s < Z.of_nat (length (history s)).

(** Recording a sequence of actions, each with its clock reading and each
    from the render that follows the previous recording. *)
Definition recordAll (acts : list (UntimedAction * Z)) (s : State) : State :=
  foldl (λ st a, addHistoryAction a.1 a.2 st) s acts.



(** Recording is not suppressed and the cursor is in range. *)
Definition recording (s : State) : Prop :=
  isUndoRedoInProgress s = false ∧ isBatchingActions s = false ∧ cursorOk s.



(** Mapping a function over the layers that carry the id [i]. *)
Definition mapAt (i : string) (f : Layer → Layer) (ls : list Layer) : list Layer :=
  (λ layer, if decide (id layer = i) then f layer else layer) <$> ls.

(** [l'] has the [zIndex] [z] and every other property as [l] has it. *)
Definition reindexed (l : Layer) (z : Z) (l' : Layer) : Prop :=
  zIndex l' = z ∧ id l' = id l ∧ type l' = type l ∧
  position l' = position l ∧ scale l' = scale l ∧ rotation l' = rotation l ∧
  opacity l' = opacity l ∧ locked l' = locked l ∧ visible l' = visible l ∧
  version l' = version l ∧ texturePath l' = texturePath l.

(** [ls'] is [ls] with the [zIndex] of each layer set to its position. *)
Definition renumbering (ls ls' : list Layer) : Prop :=
  length ls' = length ls ∧
  ∀ k l, ls !! k = Some l →
    ∃ l', ls' !! k = Some l' ∧ reindexed l (Z.of_nat k) l'.

(** *** Notions for the invariant on layer ids *)

(** The layer that [undo] appends for the action, if any. *)
Definition removedLayer (a : HistoryAction) : option Layer :=
  match atype a, before a, layerId a with
  | Remove, Some b, Some i => if truthy (Some i) then asLayer b else None
  | _, _, _ => None
  end.

(** The layer that [redo] appends for the action, if any. *)
Definition addedLayer (a : HistoryAction) : option Layer :=
  match atype a, after a with
  | Add, Some x => asLayer x
  | _, _ => None
  end.

(** Spreading the snapshot into a layer with id [i] leaves the id alone. *)
Definition keepsId (i : string) (b : Snapshot) : Prop :=
  match b with
  | SnapFields p => p_id p = None ∨ p_id p = Some i
  | SnapLayers _ => True
  end.

(** The layer ids that occur in a snapshot, in an action, in a state. *)
Definition snapshotIds (o : option Snapshot) : list string :=
  match o with
  | Some (SnapFields p) => match p_id p with Some i => [i] | None => [] end
  | Some (SnapLayers ls) => ids ls
  | None => []
  end.

Definition actionIds (a : HistoryAction) : list string :=
  snapshotIds (before a) ++ snapshotIds (after a).

Definition knownIds (s : State) : list string :=
  ids (layers s) ++ (history s ≫= actionIds).

(** The applied part of the log (up to the cursor) and the redo tail. *)
Definition past (h : list HistoryAction) (idx : Z) : list HistoryAction :=
  take (Z.to_nat (idx + 1)) h.

Definition future (h : list HistoryAction) (idx : Z) : list HistoryAction :=
  drop (Z.to_nat (idx + 1)) h.

(** A bulk snapshot [ls] of an action that has the actions [h1] before it
    and [h2] after it in the log can be put back as the collection. *)
Definition compat (ls : list Layer) (h1 h2 : list HistoryAction) : Prop :=
  NoDup (ids ls) ∧
  (∀ r l, r ∈ h1 → removedLayer r = Some l → id l ∉ ids ls) ∧
  (∀ x l, x ∈ h2 → addedLayer x = Some l → id l ∉ ids ls).

(** What the log guarantees about one of its actions, given the actions
    before and after it. *)
Definition actionOk (a : HistoryAction) (h1 h2 : list HistoryAction) : Prop :=
  (∀ l, addedLayer a = Some l →
     layerId a = Some (id l) ∧ id l ≠ ""%string ∧
     ∀ r, r ∈ h1 → id l ∉ actionIds r) ∧
  (∀ l, removedLayer a = Some l →
     layerId a = Some (id l) ∧
     ∀ r l', r ∈ h1 → removedLayer r = Some l' → id l' ≠ id l) ∧
  (atype a = Update ∨ atype a = Move →
     ∀ i, layerId a = Some i →
       (∀ b, before a = Some b → keepsId i b) ∧
       (∀ x, after a = Some x → keepsId i x)) ∧
  (atype a = Reorder →
     (∀ ls, before a = Some (SnapLayers ls) → compat ls h1 h2) ∧
     (∀ ls, after a = Some (SnapLayers ls) → compat ls h1 h2)).

Definition histOk (h : list HistoryAction) : Prop :=
  ∀ k a, h !! k = Some a → actionOk a (take k h) (drop (S k) h).

(** The invariant: distinct ids in the store; a cursor in range; no layer
    that an undo of the applied part, or a redo of the tail, would append is
    in the store; a log whose actions are consistent with one another. *)
Definition Inv (ls : list Layer) (h : list HistoryAction) (idx : Z) : Prop :=
  NoDup (ids ls) ∧
  -1 ≤ idx < Z.of_nat (length h) ∧
  (∀ r l, r ∈ past h idx → removedLayer r = Some l → id l ∉ ids ls) ∧
  (∀ x l, x ∈ future h idx → addedLayer x = Some l → id l ∉ ids ls) ∧
  histOk h.

Definition inv (s : State) : Prop :=
  Inv (layers s) (history s) (historyIndex s).

(** The calls under which the ids stay distinct: [addLayer] at a clock
    reading whose id occurs neither in the store nor in the log,
    [updateLayer] with a partial object that lists no other id,
    [reorderLayers] with a list without repetition. *)
Definition admissible (op : Op) (s : State) : Prop :=
  match op with
  | OpAddLayer _ now _ => layerIdAt now ∉ knownIds s
  | OpUpdateLayer i u _ => p_id u = None ∨ p_id u = Some i
  | OpReorderLayers l _ => NoDup l
  | _ => True
  end.

Fixpoint disciplined (ops : list Op) (s : State) : Prop :=
  match ops with
  | [] => True
  | op :: rest =>
    admissible op s ∧
    match stateOf (run op s) with
    | Some s' => disciplined rest s'
    | None => True
    end
  end.

#[local] Instance admissible_dec op s : Decision (admissible op s).
Proof. destruct op; simpl; apply _. Defined.

#[local] Instance disciplined_dec ops : ∀ s, Decision (disciplined ops s).
Proof.
  induction ops as [|op ops IH]; intros s; simpl; [apply _|].
  destruct (stateOf (run op s)); apply _.
Defined.

(** ** Sample data for the concrete instances *)

Definition house : LayerWithoutId :=
  {| w_type := "house"; w_position := {| x := 100 # 1; y := 100 # 1 |};
     w_scale := 1 # 1; w_rotation := None; w_opacity := 1 # 1; w_zIndex := 0;
     w_locked := false; w_visible := true; w_version := 1;
     w_texturePath := "/a.svg" |}.

Definition layerA : Layer := withId house "a".
Definition layerB : Layer := withId house "b".
Definition layerC : Layer := withId house "c".

Definition sampleActions : list (UntimedAction * Z) :=
  (λ n, ({| u_type := Move; u_layerId := Some "a"%string;
            u_before := Some (SnapFields (positionOnly {| x := 0 # 1; y := 0 # 1 |}));
            u_after := Some (SnapFields
              (positionOnly {| x := inject_Z (Z.of_nat n); y := 0 # 1 |})) |},
         Z.of_nat n)) <$> seq 0 21.

(** A spec like [house] with the given opacity and scale. *)
Definition houseWith (op sc : Q) : LayerWithoutId :=
  {| w_type := "house"; w_position := {| x := 100 # 1; y := 100 # 1 |};
     w_scale := sc; w_rotation := None; w_opacity := op; w_zIndex := 0;
     w_locked := false; w_visible := true; w_version := 1;
     w_texturePath := "/a.svg" |}.

(** A spec like [house] with the given texture path. *)
Definition houseAt (path : string) : LayerWithoutId :=
  {| w_type := "house"; w_position := {| x := 100 # 1; y := 100 # 1 |};
     w_scale := 1 # 1; w_rotation := None; w_opacity := 1 # 1; w_zIndex := 0;
     w_locked := false; w_visible := true; w_version := 1;
     w_texturePath := path |}.

(** The partial object [{ id: 'z', type: 'shop' }]. *)
Definition renameToShop : PartialLayer :=
  {| p_id := Some "z"%string; p_type := Some "shop"%string; p_position := None;
     p_scale := None; p_rotation := None; p_opacity := None; p_zIndex := None;
     p_locked := None; p_visible := None; p_version := None;
     p_texturePath := None |}.

(** A run of the operations that keeps to [admissible] calls. *)
Definition sampleOps : list Op :=
  [OpAddLayer house 1000 1000; OpAddLayer house 1001 1002;
   OpRemoveLayer "layer_1000" 1003; OpUndo; OpUndo; OpStartBatch;
   OpUpdateLayer "a" emptyPartial 1004; OpEndBatch; OpRedo;
   OpReorderLayers ["layer_1001"%string; "a"%string] 1005;
   OpUndo; OpRedo; OpClearLayers 1006; OpUndo; OpUndo; OpUndo;
   OpAddLayer house 1007 1007; OpMoveLayer "b" {| x := 1 # 2; y := 3 # 1 |} 1008].

Definition sampleRun : State :=
  default (initialState []) (runAll sampleOps (initialState [layerA; layerB])).

(** ** Notions for the properties of the history log *)

(** The cast [as Layer] that a replay of the action performs succeeds. *)
Definition typedAction (a : HistoryAction) : Prop :=
  (atype a = Add → ∀ x, after a = Some x → is_Some (asLayer x)) ∧
  (atype a = Remove → ∀ b i, before a = Some b → layerId a = Some i →
     truthy (Some i) = true → is_Some (asLayer b)).

(** The cursor is in range, the log holds at most [MAX_HISTORY_SIZE]
    actions, no replay is in progress, and the log is well typed. *)
Definition wellFormed (s : State) : Prop :=
  cursorOk s ∧ (length (history s) ≤ 20)%nat ∧
  isUndoRedoInProgress s = false ∧ Forall typedAction (history s).

(** The calls that change the layer collection through a mutator. *)
Definition isMutation (op : Op) : bool :=
  match op with
  | OpAddLayer _ _ _ | OpRemoveLayer _ _ | OpUpdateLayer _ _ _
  | OpMoveLayer _ _ _ | OpReorderLayers _ _ | OpClearLayers _ => true
  | _ => false
  end.

(** The calls that reach [addHistoryAction]: [addLayer], [reorderLayers] and
    [clearLayers] always, [removeLayer], [updateLayer] and [moveLayer] when
    the layer is found. *)
Definition records (op : Op) (s : State) : bool :=
  match op with
  | OpAddLayer _ _ _ | OpReorderLayers _ _ | OpClearLayers _ => true
  | OpRemoveLayer i _ | OpUpdateLayer i _ _ | OpMoveLayer i _ _ =>
    bool_decide (i ∈ ids (layers s))
  | _ => false
  end.

(** The [type] and [layerId] of the action that the call records. *)
Definition recordedType (op : Op) : ActionType :=
  match op with
  | OpAddLayer _ _ _ => Add
  | OpRemoveLayer _ _ | OpClearLayers _ => Remove
  | OpUpdateLayer _ _ _ => Update
  | OpMoveLayer _ _ _ => Move
  | _ => Reorder
  end.

Definition recordedId (op : Op) : option string :=
  match op with
  | OpAddLayer _ now _ => Some (layerIdAt now)
  | OpRemoveLayer i _ | OpUpdateLayer i _ _ | OpMoveLayer i _ _ => Some i
  | _ => None
  end.

(** [sampleRun] after one more [undo]. *)
Definition sampleUndone : State :=
  default (initialState [])
    (runAll (sampleOps ++ [OpUndo]) (initialState [layerA; layerB])).

(** ** [CityBuilder]: the layer controls of the sidebar *)

(** The partial objects [{ visible: b }] and [{ locked: b }]. *)
Definition visibleOnly (b : bool) : PartialLayer :=
  {| p_id := None; p_type := None; p_position := None; p_scale := None;
     p_rotation := None; p_opacity := None; p_zIndex := None;
     p_locked := None; p_visible := Some b; p_version := None;
     p_texturePath := None |}.

Definition lockedOnly (b : bool) : PartialLayer :=
  {| p_id := None; p_type := None; p_position := None; p_scale := None;
     p_rotation := None; p_opacity := None; p_zIndex := None;
     p_locked := Some b; p_visible := None; p_version := None;
     p_texturePath := None |}.

(** [toggleLayerVisibility(id)] *)
Definition toggleLayerVisibility (i : string) (now : Z) (s : State) : State :=
  match findById i (layers s) with
  | Some layer => updateLayer i (visibleOnly (negb (visible layer))) now s
  | None => s
  end.

(** [toggleLayerLock(id)] *)
Definition toggleLayerLock (i : string) (now : Z) (s : State) : State :=
  match findById i (layers s) with
  | Some layer => updateLayer i (lockedOnly (negb (locked layer))) now s
  | None => s
  end.

(** ** [CityCanvas]: the component's own layer functions

    The component keeps a collection and a selection of its own, changed by
    [addLayer], [removeLayer] and [updateLayer] declared next to
    [renderLayers]; [onLayerUpdate] and [onLayerSelect] are callbacks of the
    embedding application. *)
Record CanvasState := {
  c_layers : list Layer;
  c_selectedLayerId : option string;
}.

(** [addLayer(newLayer)] of [CityCanvas] *)
Definition canvasAddLayer (newLayer : LayerWithoutId) (now : Z) (c : CanvasState)
  : string * CanvasState :=
  let i := layerIdAt now in
  (i, {| c_layers := c_layers c ++ [withId newLayer i];
         c_selectedLayerId := c_selectedLayerId c |}).

(** [removeLayer(id)] of [CityCanvas] *)
Definition canvasRemoveLayer (i : string) (c : CanvasState) : CanvasState :=
  {| c_layers := removeId i (c_layers c);
     c_selectedLayerId :=
       if decide (c_selectedLayerId c = Some i) then None
       else c_selectedLayerId c |}.

(** [updateLayer(id, updates)] of [CityCanvas] *)
Definition canvasUpdateLayer (i : string) (updates : PartialLayer)
    (c : CanvasState) : CanvasState :=
  {| c_layers :=
       (λ layer, if decide (id layer = i) then spread layer updates else layer)
         <$> c_layers c;
     c_selectedLayerId := c_selectedLayerId c |}.

(** The collection and the selection of a state of the hook. *)
Definition canvasOf (s : State) : CanvasState :=
  {| c_layers := layers s; c_selectedLayerId := selectedLayerId s |}.

(** [{ ...layer, zIndex: index }] over the whole collection, as
    [reorderLayers] stores it in [after]. *)
Definition renumbered (ls : list Layer) : list Layer :=
  imap (λ index layer, withZIndex layer (Z.of_nat index)) ls.

(** The surface after a pass on [a] alone, its load resolved. *)
Definition sampleSurface : Surface :=
  renderTrace (passAlone [layerA] 1) blankSurface.

(** The layers of the snapshots on which the passes of a trace start. *)
Fixpoint snapshotsOf (events : list RenderEvent) : list Layer :=
  match events with
  | [] => []
  | PassStarts snapshot :: rest => snapshot ++ snapshotsOf rest
  | _ :: rest => snapshotsOf rest
  end.

(** A sprite that [renderLayers] builds for a visible layer among [known]. *)
Definition spriteFrom (known : list Layer) (sp : Sprite) : Prop :=
  ∃ layer, layer ∈ known ∧ visible layer = true ∧ sp = spriteOf layer.

(** The surface holds nothing but what passes on layers among [known] have
    made: the sprites shown, and the layers that suspended passes hold. *)
Definition madeFrom (known : list Layer) (w : Surface) : Prop :=
  cacheCoherent w ∧
  Forall (spriteFrom known) (shown w) ∧
  Forall (λ p, visible (awaiting p) = true ∧ awaiting p ∈ known ∧
               remaining p ⊆ known) (pending w).

(** ** [CityBuilder]: placing an asset *)

(** An entry of the [ASSETS] table (its icon left out). *)
Record Asset := {
  a_type : string;
  a_name : string;
  a_texturePath : string;
  a_scale : Q;
  a_version : Z;
}.

Definition ASSETS : list Asset := [
  {| a_type := "house"; a_name := "House";
     a_texturePath := "/assets/placeholders/house_v1.svg";
     a_scale := 1 # 1; a_version := 1 |};
  {| a_type := "shop"; a_name := "Shop";
     a_texturePath := "/assets/placeholders/shop_v1.svg";
     a_scale := 1 # 1; a_version := 1 |};
  {| a_type := "hospital"; a_name := "Hospital";
     a_texturePath := "/assets/placeholders/hospital_v1.svg";
     a_scale := 12 # 10; a_version := 1 |};
  {| a_type := "tree"; a_name := "Tree";
     a_texturePath := "/assets/placeholders/tree_v1.svg";
     a_scale := 8 # 10; a_version := 1 |};
  {| a_type := "bench"; a_name := "Bench";
     a_texturePath := "/assets/placeholders/bench_v1.svg";
     a_scale := 7 # 10; a_version := 1 |};
  {| a_type := "dog"; a_name := "Dog";
     a_texturePath := "/assets/placeholders/dog_v1.svg";
     a_scale := 6 # 10; a_version := 1 |};
  {| a_type := "cat"; a_name := "Cat";
     a_texturePath := "/assets/placeholders/cat_v1.svg";
     a_scale := 5 # 10; a_version := 1 |}
].

(** [ASSETS.find(a => a.type === t)] *)
Definition findAsset (t : string) : option Asset :=
  snd <$> list_find (λ a, a_type a = t) ASSETS.

(** The layer that [handleCanvasClick] passes to [addLayer]. *)
Definition placed (asset : Asset) (canvasPos : Position) (count : nat)
  : LayerWithoutId :=
  {| w_type := a_type asset; w_position := canvasPos;
     w_scale := a_scale asset; w_rotation := None; w_opacity := 1 # 1;
     w_zIndex := Z.of_nat count; w_locked := false; w_visible := true;
     w_version := a_version asset; w_texturePath := a_texturePath asset |}.

(** [handleCanvasClick(e)], [selectedAssetType] being the asset chosen in
    the toolbar. The click position scaled to the canvas, which the function
    computes in floating point from the event and the bounding rectangle, is
    the input [canvasPos]. *)
Definition handleCanvasClick (selectedAssetType : option string)
    (canvasPos : Position) (now now' : Z) (s : State) : State :=
  match selectedAssetType with
  | Some t =>
    if truthy (Some t) then
      match findAsset t with
      | Some asset =>
        (addLayer (placed asset canvasPos (length (layers s))) now now' s).2
      | None => s
      end
    else s
  | None => s
  end.

(** A click on the canvas: the asset chosen, the scaled position and the
    two clock readings of [addLayer]. *)
Definition Click : Type := option string * Position * Z * Z.

Definition clickAll (clicks : list Click) (s : State) : State :=
  foldl (λ st c, handleCanvasClick c.1.1.1 c.1.1.2 c.1.2 c.2 st) s clicks.

Definition origin : Position := {| x := 0 # 1; y := 0 # 1 |}.

(** ** [CityBuilder]: the storage bar *)

Record StorageItem := {
  st_id : string;
  st_type : string;
  st_version : Z;
}.

(** [`storage_${Date.now()}`] *)
Definition storageIdAt (now : Z) : string := "storage_"%string +:+ pretty now.

(** [addToStorage(type, version)] *)
Definition addToStorage (t : string) (version : Z) (now : Z)
    (storageItems : list StorageItem) : list StorageItem :=
  storageItems ++ [{| st_id := storageIdAt now; st_type := t;
                      st_version := version |}].

(** [removeFromStorage(id)] *)
Definition removeFromStorage (i : string) (storageItems : list StorageItem)
  : list StorageItem :=
  filter (λ item, st_id item ≠ i) storageItems.

(** * Properties *)

(** ** Array primitives *)

Lemma slice_prefix {A} (l : list A) (n : Z) :
  0 ≤ n → slice l 0 n = take (Z.to_nat n) l.
Proof.
  intros Hn. unfold slice, relIndex.
  replace (0 <? 0) with false by done.
  destruct (n <? 0) eqn:E; [lia|].
  replace (Z.min 0 (Z.of_nat (length l))) with 0 by lia.
  change (Z.to_nat 0) with 0%nat. rewrite drop_0.
  destruct (decide (n ≤ Z.of_nat (length l))) as [Hle|Hgt].
  - f_equal. lia.
  - rewrite !take_ge; [done|lia|lia].
Qed.

Lemma sliceFrom_drop {A} (l : list A) (k : Z) :
  0 ≤ k ≤ Z.of_nat (length l) → sliceFrom l k = drop (Z.to_nat k) l.
Proof.
  intros Hk. unfold sliceFrom, slice, relIndex.
  destruct (k <? 0) eqn:E; [lia|].
  destruct (Z.of_nat (length l) <? 0) eqn:E'; [lia|].
  rewrite take_ge; [f_equal; lia|].
  rewrite length_drop. lia.
Qed.

Lemma lastN_length {A} n (l : list A) : length (lastN n l) = (length l `min` n)%nat.
Proof. unfold lastN. rewrite length_drop. lia. Qed.

Lemma lastN_short {A} n (l : list A) : (length l ≤ n)%nat → lastN n l = l.
Proof. intros H. unfold lastN. by replace (length l - n)%nat with 0%nat by lia. Qed.

Lemma lastN_app_lastN {A} n (l k : list A) :
  lastN n (lastN n l ++ k) = lastN n (l ++ k).
Proof.
  unfold lastN at 1 3. rewrite !length_app, lastN_length. unfold lastN.
  rewrite !drop_app, drop_drop, length_drop.
  destruct (decide (length l ≤ n)%nat) as [Hle|Hgt].
  - f_equal; f_equal; lia.
  - f_equal; f_equal; lia.
Qed.

Lemma last_lastN {A} n (l : list A) : (0 < n)%nat → last (lastN n l) = last l.
Proof.
  intros Hn. unfold lastN.
  destruct l as [|a l _] using rev_ind; [done|].
  rewrite length_app. simpl.
  rewrite drop_app_le by lia. by rewrite !last_snoc.
Qed.

(** ** Recording *)

(** What [addHistoryAction] does when recording is not suppressed: the redo
    tail is cut, the stamped action appended, and the log trimmed to its last
    [MAX_HISTORY_SIZE] entries. *)
Lemma addHistoryAction_recorded action now s :
  isUndoRedoInProgress s = false → isBatchingActions s = false →
  -1 ≤ historyIndex s →
  addHistoryAction action now s =
    setHistoryIndex (Z.min (historyIndex s + 1) 19)
      (setHistory
         (lastN 20 (take (Z.to_nat (historyIndex s + 1)) (history s)
                    ++ [stamp action now])) s).
Proof.
  intros Hu Hb Hi. unfold addHistoryAction. rewrite Hu, Hb. simpl.
  rewrite slice_prefix by lia.
  set (upd := take _ _ ++ _).
  unfold MAX_HISTORY_SIZE.
  destruct (20 <? Z.of_nat (length upd)) eqn:E.
  - rewrite sliceFrom_drop by lia. unfold lastN.
    do 3 f_equal. lia.
  - rewrite lastN_short by lia. done.
Qed.

Lemma addHistoryAction_suppressed action now s :
  isUndoRedoInProgress s = true ∨ isBatchingActions s = true →
  addHistoryAction action now s = s.
Proof.
  intros [H|H]; unfold addHistoryAction; rewrite H; [done|].
  by destruct (isUndoRedoInProgress s).
Qed.

(** After a recording the cursor is on the last entry, which is the action
    just recorded. *)
Lemma addHistoryAction_cursor action now s :
  isUndoRedoInProgress s = false → isBatchingActions s = false →
  cursorOk s →
  let s' := addHistoryAction action now s in
  historyIndex s' = Z.of_nat (length (history s')) - 1 ∧
  at_index (history s') (historyIndex s') = Some (stamp action now).
Proof.
  intros Hu Hb [Hlo Hhi]. rewrite addHistoryAction_recorded by done. simpl.
  set (upd := take _ _ ++ _).
  assert (Hlen : length upd = Z.to_nat (historyIndex s + 2)).
  { unfold upd. rewrite length_app, length_take. simpl. lia. }
  split.
  - rewrite lastN_length. lia.
  - unfold at_index. destruct (_ <? 0) eqn:E; [lia|].
    assert (Hl : last (lastN 20 upd) = Some (stamp action now)).
    { rewrite last_lastN by lia. unfold upd. by rewrite last_snoc. }
    rewrite last_lookup in Hl. rewrite <- Hl. f_equal.
    rewrite lastN_length. lia.
Qed.

Lemma recordAll_history acts s :
  isUndoRedoInProgress s = false → isBatchingActions s = false →
  historyIndex s = Z.of_nat (length (history s)) - 1 →
  (length (history s) ≤ 20)%nat →
  let s' := recordAll acts s in
  history s' = lastN 20 (history s ++ ((λ a, stamp a.1 a.2) <$> acts)) ∧
  historyIndex s' = Z.of_nat (length (history s')) - 1 ∧
  isUndoRedoInProgress s' = false ∧ isBatchingActions s' = false ∧
  layers s' = layers s ∧ selectedLayerId s' = selectedLayerId s.
Proof.
  revert s. induction acts as [|a acts IH]; intros s Hu Hb Hi Hlen; simpl.
  - rewrite app_nil_r, lastN_short by done. done.
  - assert (Hc : cursorOk s) by (unfold cursorOk; lia).
    pose proof (addHistoryAction_cursor a.1 a.2 s Hu Hb Hc) as [Hi' _].
    pose proof (addHistoryAction_recorded a.1 a.2 s Hu Hb (proj1 Hc)) as Heq.
    set (s1 := addHistoryAction a.1 a.2 s) in *.
    assert (Hh1 : history s1 = lastN 20 (history s ++ [stamp a.1 a.2])).
    { rewrite Heq. simpl. by rewrite take_ge by lia. }
    destruct (IH s1) as (Hh & Hx & Hu' & Hb' & Hl & Hsel).
    + by rewrite Heq.
    + by rewrite Heq.
    + done.
    + rewrite Hh1, lastN_length. lia.
    + split_and!; try done.
      * rewrite Hh, Hh1, lastN_app_lastN.
        by rewrite <- (assoc_L (++)).
      * by rewrite Hl, Heq.
      * by rewrite Hsel, Heq.
Qed.

(** ** C3: capacity of the history log *)

(** Called for the same render, [addHistoryActionOn], [addLayerOn], [undoOn]
    and [redoOn] are the functions of a single call. *)
Lemma addHistoryActionOn_same a now s :
  addHistoryActionOn s a now s = addHistoryAction a now s.
Proof. done. Qed.

Lemma addLayerOn_same newLayer now now' s :
  addLayerOn s newLayer now now' s = addLayer newLayer now now' s.
Proof. done. Qed.

Lemma undoOn_same s : undoOn s s = undo s.
Proof. done. Qed.

Lemma redoOn_same s : redoOn s s = redo s.
Proof. done. Qed.

(** Twenty-one [addLayer] calls made from the render of the empty store, at
    the clock readings 1 to 21. Each [setHistory] updater cuts the log at
    the [historyIndex] of that render, [-1], so the log holds the action of
    the last call alone, while each [setHistoryIndex] updater counts on from
    the queued value: 21 actions have been recorded, the log has one entry
    and [historyIndex] is 19, a position that holds no action. *)
Lemma recordings_from_one_render_overwrite :
  let clock := Z.of_nat <$> seq 1 21 in
  let s' := addLayersOn (initialState []) house clock in
  (MAX_HISTORY_SIZE < Z.of_nat (length clock)) ∧
  length (layers s') = 1%nat ∧
  length (history s') = 1%nat ∧
  layerId <$> history s' = [Some (layerIdAt 21)] ∧
  historyIndex s' = 19 ∧
  at_index (history s') (historyIndex s') = None.
Proof. by vm_compute. Qed.

(** C3, amended. Starting from an empty history, recording more than
    [MAX_HISTORY_SIZE] = 20 actions with no undo or redo in between, each
    recording made from the render that follows the previous one
    ([recordAll]), leaves a log of exactly 20 entries, namely the 20 most
    recently recorded actions in the order of recording, and [historyIndex]
    = 19 on the latest of them. *)
Theorem history_capacity (acts : list (UntimedAction * Z)) (s : State) :
  history s = [] → historyIndex s = -1 →
  isUndoRedoInProgress s = false → isBatchingActions s = false →
  (20 < length acts)%nat →
  let s' := recordAll acts s in
  length (history s') = 20%nat ∧
  history s' = drop (length acts - 20) ((λ a, stamp a.1 a.2) <$> acts) ∧
  historyIndex s' = 19 ∧
  at_index (history s') (historyIndex s') = last ((λ a, stamp a.1 a.2) <$> acts).
Proof.
  intros Hh Hi Hu Hb Hn s'.
  destruct (recordAll_history acts s) as (Hh' & Hi' & _); try done.
  { rewrite Hh, Hi. done. }
  { rewrite Hh. simpl. lia. }
  fold s' in Hh', Hi'. rewrite Hh in Hh'. simpl in Hh'.
  assert (Hlen : length (history s') = 20%nat).
  { rewrite Hh', lastN_length, length_fmap. lia. }
  split_and!.
  - done.
  - rewrite Hh'. unfold lastN. by rewrite length_fmap.
  - lia.
  - rewrite Hi', Hlen. unfold at_index. simpl.
    rewrite Hh'. rewrite <- (last_lastN 20) by lia.
    rewrite last_lookup, lastN_length, length_fmap.
    f_equal. lia.
Qed.

Lemma history_capacity_witness :
  let s' := recordAll sampleActions (initialState []) in
  length (history s') = 20%nat ∧
  history s' = drop (length sampleActions - 20)
                 ((λ a, stamp a.1 a.2) <$> sampleActions) ∧
  historyIndex s' = 19 ∧
  at_index (history s') (historyIndex s') =
    last ((λ a, stamp a.1 a.2) <$> sampleActions).
Proof.
  apply (history_capacity sampleActions (initialState [])); try reflexivity.
  vm_compute. lia.
Defined.

(** ** C9: mutations that name an unknown id *)

Lemma findById_None i ls : findById i ls = None ↔ i ∉ ids ls.
Proof.
  unfold findById, ids. rewrite fmap_None, list_find_None, Forall_forall.
  rewrite list_elem_of_fmap. split.
  - intros H (l & -> & Hl). by apply (H l).
  - intros H l Hl Heq. apply H. by exists l.
Qed.

Lemma findById_Some i ls l :
  findById i ls = Some l → l ∈ ls ∧ id l = i.
Proof.
  unfold findById. rewrite fmap_Some. intros ([k l'] & Hf & ->).
  apply list_find_Some in Hf as (Hk & Hid & _). simpl.
  split; [by eapply list_elem_of_lookup_2|done].
Qed.

(** C9. For an id carried by no layer of the store, [removeLayer],
    [updateLayer] and [moveLayer] return normally and leave the whole state as
    it was: layer collection, selection, history log and [historyIndex], hence
    [canUndo] and [canRedo]. *)
Theorem unknown_id_is_noop (i : string) (updates : PartialLayer)
    (pos : Position) (now : Z) (s : State) :
  i ∉ ids (layers s) →
  run (OpRemoveLayer i now) s = Returned s ∧
  run (OpUpdateLayer i updates now) s = Returned s ∧
  run (OpMoveLayer i pos now) s = Returned s ∧
  Forall (λ s', layers s' = layers s ∧
                selectedLayerId s' = selectedLayerId s ∧
                selectedLayer s' = selectedLayer s ∧
                history s' = history s ∧ historyIndex s' = historyIndex s ∧
                canUndo s' = canUndo s ∧ canRedo s' = canRedo s)
    [removeLayer i now s; updateLayer i updates now s; moveLayer i pos now s].
Proof.
  intros Hi. apply findById_None in Hi.
  assert (H1 : removeLayer i now s = s) by (unfold removeLayer; by rewrite Hi).
  assert (H2 : updateLayer i updates now s = s) by (unfold updateLayer; by rewrite Hi).
  assert (H3 : moveLayer i pos now s = s) by (unfold moveLayer; by rewrite Hi).
  simpl. rewrite H1, H2, H3. split_and!; try done.
  by repeat constructor.
Qed.

Lemma unknown_id_is_noop_witness :
  let s := (addLayer house 1000 1000 (initialState [])).2 in
  run (OpRemoveLayer "nonexistent" 5) s = Returned s ∧
  run (OpUpdateLayer "nonexistent" renameToShop 5) s = Returned s ∧
  run (OpMoveLayer "nonexistent" {| x := 10 # 1; y := 20 # 1 |} 5) s = Returned s ∧
  Forall (λ s', layers s' = layers s ∧
                selectedLayerId s' = selectedLayerId s ∧
                selectedLayer s' = selectedLayer s ∧
                history s' = history s ∧ historyIndex s' = historyIndex s ∧
                canUndo s' = canUndo s ∧ canRedo s' = canRedo s)
    [removeLayer "nonexistent" 5 s; updateLayer "nonexistent" renameToShop 5 s;
     moveLayer "nonexistent" {| x := 10 # 1; y := 20 # 1 |} 5 s].
Proof.
  apply (unknown_id_is_noop "nonexistent" renameToShop
           {| x := 10 # 1; y := 20 # 1 |} 5
           (addLayer house 1000 1000 (initialState [])).2).
  intros H. apply list_elem_of_In in H. vm_compute in H.
  destruct H as [H|H]; [discriminate H|destruct H].
Defined.

(** ** C4: the selected layer *)

(** C4. In every state of the hook, hence in every state that the public
    operations reach, however the calls are spread over renders,
    [selectedLayer] is [null] or a layer of the current collection (the one
    found under [selectedLayerId]), so its id is an id of the collection. *)
Theorem selectedLayer_in_collection (s : State) :
  selectedLayer s = None ∨
  ∃ l, selectedLayer s = Some l ∧ l ∈ layers s ∧ id l ∈ ids (layers s) ∧
       selectedLayerId s = Some (id l).
Proof.
  unfold selectedLayer.
  destruct (selectedLayerId s) as [i|]; [|by left].
  destruct (truthy (Some i)); [|by left].
  destruct (findById i (layers s)) as [l|] eqn:E; [|by left].
  right. exists l. apply findById_Some in E as [Hl <-].
  split_and!; try done. unfold ids. by apply list_elem_of_fmap_2.
Qed.

Lemma selectedLayer_in_collection_witness :
  let s := selectLayer (Some "layer_1000"%string)
             (addLayer house 1000 1000 (initialState [])).2 in
  selectedLayer s = None ∨
  ∃ l, selectedLayer s = Some l ∧ l ∈ layers s ∧ id l ∈ ids (layers s) ∧
       selectedLayerId s = Some (id l).
Proof.
  apply selectedLayer_in_collection.
Defined.

(** [selectedLayerId] itself may name a layer that is gone: after an add, a
    selection and an undo it still holds the id, and [selectedLayer] is
    [null]. *)
Lemma selectedLayerId_may_dangle :
  ∃ s, runAll [OpAddLayer house 1000 1000;
               OpSelectLayer (Some "layer_1000"%string); OpUndo]
         (initialState []) = Some s ∧
       selectedLayerId s = Some "layer_1000"%string ∧
       layers s = [] ∧ selectedLayer s = None.
Proof. eexists. split_and!; [by vm_compute|done..]. Qed.

(** ** C6: what [updateLayer] may change *)

(** [updateLayer] with [{ id: 'z', type: 'shop' }] on the layer ["a"]: the
    layer is found under ["a"] before the call and carries the id ["z"] and
    the type ["shop"] after it. *)
Lemma updateLayer_reassigns_id_and_type :
  let s := initialState [layerA] in
  let s' := updateLayer "a" renameToShop 0 s in
  "a"%string ∈ ids (layers s) ∧
  ids (layers s') = ["z"%string] ∧
  type <$> layers s' = ["shop"%string] ∧
  findById "a" (layers s') = None.
Proof. split; [|by vm_compute]. vm_compute. apply list_elem_of_here. Qed.

Lemma updateLayer_layers i updates now s :
  i ∈ ids (layers s) →
  layers (updateLayer i updates now s) =
    (λ layer, if decide (id layer = i) then spread layer updates else layer)
      <$> layers s.
Proof.
  intros Hi. unfold updateLayer.
  destruct (findById i (layers s)) as [l|] eqn:E.
  - unfold addHistoryAction. by destruct (_ || _).
  - by apply findById_None in E.
Qed.

(** C6, amended. For an id of the store, [updateLayer(id, partial)] replaces
    every layer carrying that id by its shallow merge with the partial object
    and leaves the other layers alone. In the merge each property listed in
    the partial object, [id] and [type] included, takes the listed value and
    each property not listed keeps the layer's value; so [id] and [type] are
    kept when the partial object does not list them. *)
Theorem updateLayer_shallow_merge (i : string) (updates : PartialLayer)
    (now : Z) (s : State) :
  i ∈ ids (layers s) →
  layers (updateLayer i updates now s) =
    (λ layer, if decide (id layer = i) then spread layer updates else layer)
      <$> layers s ∧
  ∀ l : Layer,
    id (spread l updates) = default (id l) (p_id updates) ∧
    type (spread l updates) = default (type l) (p_type updates) ∧
    position (spread l updates) = default (position l) (p_position updates) ∧
    scale (spread l updates) = default (scale l) (p_scale updates) ∧
    rotation (spread l updates) =
      from_option Some (rotation l) (p_rotation updates) ∧
    opacity (spread l updates) = default (opacity l) (p_opacity updates) ∧
    zIndex (spread l updates) = default (zIndex l) (p_zIndex updates) ∧
    locked (spread l updates) = default (locked l) (p_locked updates) ∧
    visible (spread l updates) = default (visible l) (p_visible updates) ∧
    version (spread l updates) = default (version l) (p_version updates) ∧
    texturePath (spread l updates) =
      default (texturePath l) (p_texturePath updates) ∧
    (p_id updates = None → id (spread l updates) = id l) ∧
    (p_type updates = None → type (spread l updates) = type l).
Proof.
  intros Hi. split; [by apply updateLayer_layers|].
  intros l. split_and!; try done.
  - intros H. simpl. by rewrite H.
  - intros H. simpl. by rewrite H.
Qed.

Lemma updateLayer_shallow_merge_witness :
  layers (updateLayer "a" renameToShop 0 (initialState [layerA; layerB])) =
    (λ layer, if decide (id layer = "a"%string)
              then spread layer renameToShop else layer)
      <$> [layerA; layerB].
Proof.
  apply (updateLayer_shallow_merge "a" renameToShop 0
           (initialState [layerA; layerB])).
  vm_compute. apply list_elem_of_here.
Defined.

(** ** C7: what [addLayer] stores *)

(** [addLayer] with opacity 2 and scale -1: the stored layer has opacity 2,
    outside [0,1], and scale -1. *)
Lemma addLayer_keeps_opacity_2 :
  let s' := (addLayer (houseWith (2 # 1) (-1 # 1)) 1000 1000 (initialState [])).2 in
  opacity <$> layers s' = [2 # 1]%Q ∧ ¬ (2 # 1 <= 1)%Q ∧
  scale <$> layers s' = [-1 # 1]%Q ∧ ¬ (0 < -1 # 1)%Q.
Proof.
  split_and!; [done| |done|].
  - unfold Qle. simpl. lia.
  - unfold Qlt. simpl. lia.
Qed.

(** C7, amended. [addLayer] appends the spec under the id [layer_<now>] with
    every property as given: the stored opacity and scale are the spec's, with
    no clamping and no check, so the stored opacity lies in [0,1] exactly when
    the spec's does and the stored scale is positive exactly when the spec's
    is. *)
Theorem addLayer_stores_spec (newLayer : LayerWithoutId) (now now' : Z)
    (s : State) :
  let r := addLayer newLayer now now' s in
  let stored := withId newLayer (layerIdAt now) in
  r.1 = layerIdAt now ∧
  layers r.2 = layers s ++ [stored] ∧
  opacity stored = w_opacity newLayer ∧
  scale stored = w_scale newLayer ∧
  ((0 <= opacity stored)%Q ∧ (opacity stored <= 1)%Q ↔
   (0 <= w_opacity newLayer)%Q ∧ (w_opacity newLayer <= 1)%Q) ∧
  ((0 < scale stored)%Q ↔ (0 < w_scale newLayer)%Q).
Proof. by split_and!. Qed.

(** ** C2: [reorderLayers] *)

Lemma layerMapOf_snoc ls l :
  layerMapOf (ls ++ [l]) = <[id l := l]> (layerMapOf ls).
Proof. unfold layerMapOf. by rewrite foldl_app. Qed.

Lemma layerMapOf_Some ls i l :
  layerMapOf ls !! i = Some l → l ∈ ls ∧ id l = i.
Proof.
  induction ls as [|l0 ls IH] using rev_ind; [done|].
  rewrite layerMapOf_snoc, lookup_insert. case_decide as Hd.
  - intros [= <-]. split; [|done]. apply elem_of_app. right. by left.
  - intros H. destruct (IH H) as [Hin Hid]. split; [|done].
    apply elem_of_app. by left.
Qed.

Lemma layerMapOf_None ls i : layerMapOf ls !! i = None ↔ i ∉ ids ls.
Proof.
  unfold ids. induction ls as [|l0 ls IH] using rev_ind.
  - split; [|done]. intros _ H. by apply elem_of_nil in H.
  - rewrite layerMapOf_snoc, lookup_insert, fmap_app, elem_of_app.
    simpl. rewrite list_elem_of_singleton. case_decide as Hd.
    + split; [done|]. intros H. destruct H. by right.
    + rewrite IH. split; [|tauto]. intros H [H'|H']; [done|]. by subst.
Qed.

Lemma NoDup_ids_inj ls l l' :
  NoDup (ids ls) → l ∈ ls → l' ∈ ls → id l = id l' → l = l'.
Proof.
  intros Hnd [k Hk]%list_elem_of_lookup [k' Hk']%list_elem_of_lookup Hid.
  assert (k = k') as <-.
  { eapply (NoDup_lookup _ _ _ _ Hnd); unfold ids; rewrite list_lookup_fmap.
    - by rewrite Hk.
    - rewrite Hk'. simpl. by rewrite Hid. }
  congruence.
Qed.

Lemma layerMapOf_NoDup ls l :
  NoDup (ids ls) → l ∈ ls → layerMapOf ls !! id l = Some l.
Proof.
  intros Hnd Hl. destruct (layerMapOf ls !! id l) as [l'|] eqn:E.
  - apply layerMapOf_Some in E as [Hin Hid]. f_equal.
    by apply (NoDup_ids_inj ls).
  - apply layerMapOf_None in E. destruct E. unfold ids.
    by apply list_elem_of_fmap_2.
Qed.

Lemma reordered_elem_of m orderedIds l' :
  l' ∈ reordered m orderedIds ↔
  ∃ k i l, orderedIds !! k = Some i ∧ m !! i = Some l ∧
           l' = withZIndex l (Z.of_nat k).
Proof.
  unfold reordered. rewrite list_elem_of_omap. split.
  - intros (o & [k Hk]%list_elem_of_lookup & ->).
    rewrite list_lookup_imap in Hk.
    destruct (orderedIds !! k) as [i|] eqn:Ei; [|done]. simpl in Hk.
    destruct (m !! i) as [l|] eqn:El; [|done].
    exists k, i, l. split_and!; try done. congruence.
  - intros (k & i & l & Hk & Hm & ->). exists (Some (withZIndex l (Z.of_nat k))).
    split; [|done]. apply list_elem_of_lookup. exists k.
    rewrite list_lookup_imap, Hk. simpl. by rewrite Hm.
Qed.

Lemma reordered_ids_gen (m : gmap string Layer) (f : nat → string → option Layer)
    (l : list string) :
  (∀ n i, match f n i with
          | Some layer => id layer = i ∧ is_Some (m !! i)
          | None => m !! i = None
          end) →
  ids (omap (λ o : option Layer, o) (imap f l)) =
    filter (λ i, is_Some (m !! i)) l.
Proof.
  revert f. induction l as [|i l IH]; intros f Hf; [done|].
  rewrite imap_cons. simpl. specialize (Hf 0%nat i) as Hi.
  destruct (f 0%nat i) as [layer|].
  - destruct Hi as [Hid Hs]. rewrite filter_cons_True by done.
    unfold ids in *. simpl. rewrite Hid. f_equal. apply IH.
    intros n j. apply (Hf (S n)).
  - rewrite filter_cons_False by (rewrite Hi; by intros [? ?]).
    apply IH. intros n j. apply (Hf (S n)).
Qed.

Lemma reordered_ids ls orderedIds :
  ids (reordered (layerMapOf ls) orderedIds) =
    filter (λ i, i ∈ ids ls) orderedIds.
Proof.
  unfold reordered.
  rewrite (reordered_ids_gen (layerMapOf ls)).
  - apply list_filter_iff. intros i.
    rewrite <- not_eq_None_Some, layerMapOf_None.
    split; [apply dec_stable|by intros ? ?].
  - intros n i. destruct (layerMapOf ls !! i) as [l|] eqn:E; [|done].
    apply layerMapOf_Some in E as [_ Hid]. by split.
Qed.

Lemma reorderLayers_layers orderedIds now s :
  layers (reorderLayers orderedIds now s) =
    reordered (layerMapOf (layers s)) orderedIds.
Proof. unfold reorderLayers, addHistoryAction. by destruct (_ || _). Qed.

Lemma reindexed_withZIndex l z : reindexed l z (withZIndex l z).
Proof. by repeat split. Qed.

(** [reorderLayers(['b'])] on the store [a, b]: the layer ["a"], omitted from
    the list, is no longer in the store. *)
Lemma reorderLayers_drops_omitted :
  let s := initialState [layerA; layerB] in
  let s' := reorderLayers ["b"%string] 0 s in
  findById "a" (layers s) = Some layerA ∧
  layers s' = [withZIndex layerB 0] ∧
  findById "a" (layers s') = None.
Proof. by vm_compute. Qed.

(** C2, amended. On a store with pairwise distinct ids,
    [reorderLayers(orderedIds)] replaces the collection by the layers that
    [orderedIds] names, in the order of [orderedIds] (ids unknown to the store
    are skipped), each with [zIndex] = its position within [orderedIds] and
    its other properties as before. A layer of the store whose id is omitted
    from [orderedIds] is not part of the resulting collection. *)
Theorem reorderLayers_result (orderedIds : list string) (now : Z) (s : State) :
  NoDup (ids (layers s)) →
  let s' := reorderLayers orderedIds now s in
  (∀ k i l, orderedIds !! k = Some i → l ∈ layers s → id l = i →
     ∃ l', l' ∈ layers s' ∧ zIndex l' = Z.of_nat k ∧
           reindexed l (Z.of_nat k) l') ∧
  (∀ l', l' ∈ layers s' →
     ∃ k l, orderedIds !! k = Some (id l') ∧ l ∈ layers s ∧
            zIndex l' = Z.of_nat k ∧ reindexed l (Z.of_nat k) l') ∧
  ids (layers s') = filter (λ i, i ∈ ids (layers s)) orderedIds ∧
  (∀ l, l ∈ layers s → id l ∉ orderedIds → id l ∉ ids (layers s')).
Proof.
  intros Hnd s'. unfold s'. rewrite reorderLayers_layers.
  split_and!.
  - intros k i l Hk Hl Hid. exists (withZIndex l (Z.of_nat k)).
    split_and!; [|done|apply reindexed_withZIndex].
    apply reordered_elem_of. exists k, i, l.
    split_and!; try done. rewrite <- Hid. by apply layerMapOf_NoDup.
  - intros l' (k & i & l & Hk & Hm & ->)%reordered_elem_of.
    apply layerMapOf_Some in Hm as [Hin Hid]. exists k, l.
    split_and!; [|done|done|apply reindexed_withZIndex].
    simpl. by rewrite Hid.
  - apply reordered_ids.
  - intros l Hl Hno. rewrite reordered_ids, list_elem_of_filter. tauto.
Qed.

Lemma reorderLayers_result_witness :
  let s := initialState [layerA; layerB; layerC] in
  let s' := reorderLayers ["b"%string; "a"%string] 0 s in
  ids (layers s') = filter (λ i, i ∈ ids (layers s)) ["b"%string; "a"%string].
Proof.
  apply (reorderLayers_result ["b"%string; "a"%string] 0
           (initialState [layerA; layerB; layerC])).
  vm_compute. repeat constructor; intros H; apply list_elem_of_In in H;
    simpl in H; intuition discriminate.
Defined.

(** ** C5 and C1: replaying a recorded action *)

Lemma addHistoryAction_layers action now s :
  layers (addHistoryAction action now s) = layers s ∧
  selectedLayerId (addHistoryAction action now s) = selectedLayerId s.
Proof. unfold addHistoryAction. by destruct (_ || _). Qed.

(** [undo] on a cursor that holds [action], then [redo]. *)
Lemma undo_redo_at action s1 ls1 ls2 :
  0 ≤ historyIndex s1 →
  at_index (history s1) (historyIndex s1) = Some action →
  undoLayers action (layers s1) = Some ls1 →
  redoLayers action ls1 = Some ls2 →
  ∃ s2 s3, undo s1 = Returned s2 ∧ layers s2 = ls1 ∧
           redo s2 = Returned s3 ∧ layers s3 = ls2.
Proof.
  intros Hi Hat Hu Hr.
  assert (Hlt : historyIndex s1 < Z.of_nat (length (history s1))).
  { unfold at_index in Hat. destruct (_ <? 0) eqn:E; [done|].
    apply lookup_lt_Some in Hat. lia. }
  eexists _, _. split_and!.
  - unfold undo. destruct (historyIndex s1 <? 0) eqn:E; [lia|].
    rewrite Hat, Hu. reflexivity.
  - done.
  - unfold redo. simpl.
    destruct (_ <=? _) eqn:E; [lia|].
    replace (historyIndex s1 - 1 + 1) with (historyIndex s1) by lia.
    rewrite Hat, Hr. reflexivity.
  - done.
Qed.

Lemma truthy_nonempty i : i ≠ ""%string → truthy (Some i) = true.
Proof. intros H. unfold truthy. by case_decide. Qed.

Lemma layerIdAt_nonempty now : layerIdAt now ≠ ""%string.
Proof. done. Qed.

Lemma asLayer_asPartial l : asLayer (SnapFields (asPartial l)) = Some l.
Proof. by destruct l. Qed.

Lemma removeId_absent i ls : i ∉ ids ls → removeId i ls = ls.
Proof.
  unfold removeId, ids. induction ls as [|l ls IH]; [done|].
  rewrite fmap_cons, not_elem_of_cons. intros [Hne Hni].
  rewrite filter_cons_True by done. f_equal. by apply IH.
Qed.



Lemma findById_cons i l ls :
  findById i (l :: ls) = if decide (id l = i) then Some l else findById i ls.
Proof.
  unfold findById. simpl. case_decide; [done|].
  destruct (list_find _ ls) as [[k l']|]; done.
Qed.



Lemma findById_unique i ls l l' :
  NoDup (ids ls) → findById i ls = Some l → l' ∈ ls → id l' = i → l' = l.
Proof.
  intros Hnd [Hl Hid]%findById_Some Hl' Hid'.
  apply (NoDup_ids_inj ls); congruence.
Qed.

Lemma findById_is_Some i ls : i ∈ ids ls → ∃ l, findById i ls = Some l.
Proof.
  intros Hi. destruct (findById i ls) as [l|] eqn:E; [by exists l|].
  by apply findById_None in E.
Qed.



Lemma spread_positionOnly l p : spread l (positionOnly p) = withPosition l p.
Proof. done. Qed.

Lemma withPosition_restore l p : withPosition (withPosition l p) (position l) = l.
Proof. by destruct l. Qed.

Lemma withPosition_twice l p q : withPosition (withPosition l p) q = withPosition l q.
Proof. done. Qed.


Lemma fmap_agree {A B} (f g : A → B) (l : list A) :
  (∀ a, a ∈ l → f a = g a) → f <$> l = g <$> l.
Proof.
  induction l as [|a l IH]; intros H; [done|].
  rewrite !fmap_cons. f_equal.
  - apply H. by left.
  - apply IH. intros b Hb. apply H. by right.
Qed.

Lemma fmap_fixed {A} (f : A → A) (l : list A) :
  (∀ a, a ∈ l → f a = a) → f <$> l = l.
Proof.
  induction l as [|a l IH]; intros H; [done|].
  rewrite fmap_cons. f_equal.
  - apply H. by left.
  - apply IH. intros b Hb. apply H. by right.
Qed.

(** Mapping [g] over the layers with id [i] after [f], when both leave the
    id alone on the one layer [l] that carries it. *)
Lemma mapAt_mapAt i f g ls l :
  NoDup (ids ls) → findById i ls = Some l → id (f l) = i →
  mapAt i g (mapAt i f ls) = mapAt i (λ _, g (f l)) ls.
Proof.
  intros Hnd Hf Hid. unfold mapAt. rewrite <- list_fmap_compose.
  apply fmap_agree. intros l' Hl'. simpl.
  destruct (decide (id l' = i)) as [Hi|Hi].
  - rewrite (findById_unique i ls l l') by done. by rewrite decide_True.
  - by rewrite decide_False.
Qed.

Lemma mapAt_const_found i ls l :
  NoDup (ids ls) → findById i ls = Some l → mapAt i (λ _, l) ls = ls.
Proof.
  intros Hnd Hf. unfold mapAt. apply fmap_fixed. intros l' Hl'.
  case_decide as Hi; [|done]. symmetry. by apply (findById_unique i ls).
Qed.


(** The state right after a recording: the cursor holds the stamped action. *)
Lemma recorded_at action now s :
  isUndoRedoInProgress s = false → isBatchingActions s = false → cursorOk s →
  let s' := addHistoryAction action now s in
  0 ≤ historyIndex s' ∧
  at_index (history s') (historyIndex s') = Some (stamp action now) ∧
  layers s' = layers s.
Proof.
  intros Hu Hb Hc s'.
  destruct (addHistoryAction_cursor action now s Hu Hb Hc) as [Hi Hat].
  fold s' in Hi, Hat. split_and!; [|done|apply addHistoryAction_layers].
  unfold at_index in Hat. destruct (historyIndex s' <? 0) eqn:E; [done|lia].
Qed.

Arguments removeId : simpl never.
Arguments truthy : simpl never.
Arguments layerIdAt : simpl never.
Arguments asLayer : simpl never.
Arguments asPartial : simpl never.

Section SingleActionReplay.
Variable s : State.
Hypothesis Hrec : recording s.
Hypothesis Hnd : NoDup (ids (layers s)).




End SingleActionReplay.




(** *** Bulk actions *)

Lemma undo_at action s1 ls1 :
  0 ≤ historyIndex s1 →
  at_index (history s1) (historyIndex s1) = Some action →
  undoLayers action (layers s1) = Some ls1 →
  ∃ s2, undo s1 = Returned s2 ∧ layers s2 = ls1 ∧
        historyIndex s2 = historyIndex s1 - 1.
Proof.
  intros Hi Hat Hu. eexists. split_and!.
  - unfold undo. destruct (historyIndex s1 <? 0) eqn:E; [lia|].
    rewrite Hat, Hu. reflexivity.
  - done.
  - done.
Qed.

(** [undo] right after [reorderLayers] puts back the collection of the
    [before] snapshot. *)
Lemma undo_reorderLayers orderedIds now s :
  recording s →
  ∃ s2, undo (reorderLayers orderedIds now s) = Returned s2 ∧
        layers s2 = layers s.
Proof.
  intros (Hu & Hb & Hc). unfold reorderLayers.
  set (upd := reordered _ _). set (act := Build_UntimedAction _ _ _ _).
  destruct (recorded_at act now (setLayers upd s)) as (Hi & Hat & Hl); try done.
  destruct (undo_at (stamp act now) (addHistoryAction act now (setLayers upd s))
              (layers s)) as (s2 & H1 & H2 & _); try done.
  by exists s2.
Qed.

(** [undo] right after [clearLayers] finds a [remove] action without
    [layerId], changes no layer and moves the cursor back: the store stays
    empty. *)
Lemma undo_clearLayers now s :
  recording s →
  ∃ s2, undo (clearLayers now s) = Returned s2 ∧ layers s2 = [] ∧
        historyIndex s2 = historyIndex (clearLayers now s) - 1.
Proof.
  intros (Hu & Hb & Hc). unfold clearLayers.
  set (act := Build_UntimedAction _ _ _ _).
  set (s0 := setSelectedLayerId None (handleLayerChange [] (setLayers [] s))).
  destruct (recorded_at act now s0) as (Hi & Hat & Hl); try done.
  apply (undo_at (stamp act now)); try done.
  by rewrite Hl.
Qed.

(** C5. The code at the failing input: the store [a, b] is cleared, the
    recorded action carries the full collection in [before], and [undo]
    returns with an empty store instead of [a, b]. *)
Theorem undo_after_clearLayers_restores_nothing :
  let s := initialState [layerA; layerB] in
  let s1 := clearLayers 0 s in
  (before <$> history s1) = [Some (SnapLayers [layerA; layerB])] ∧
  (layerId <$> history s1) = [None] ∧
  ∃ s2, run OpUndo s1 = Returned s2 ∧ layers s2 = [] ∧ canUndo s2 = false.
Proof. split_and!; [done|done|]. eexists. by split_and!. Qed.

(** ** C10: passes of [renderLayers] *)

Lemma anonymous_makeSprite h layer tex :
  anonymous (makeSprite h layer tex) = makeSprite 0 layer tex.
Proof. done. Qed.

Lemma shown_addSprite layer tex w :
  shown (addSprite layer tex w) = shown w ++ [makeSprite 0 layer tex].
Proof. unfold shown. simpl. by rewrite fmap_app. Qed.

(** One uninterrupted run of the loop: the visible layers up to the one that
    needs a load are on the stage, the cache and the suspended passes are
    untouched. *)
Lemma renderLoop_spec rest : ∀ w w1 o,
  renderLoop rest w = (w1, o) → cacheCoherent w →
  textureCache w1 = textureCache w ∧ pending w1 = pending w ∧
  (∀ p, o = Some p →
     visible (awaiting p) = true ∧
     textureCache w !! texturePath (awaiting p) = None) ∧
  ∃ pre, shown w1 = shown w ++ (spriteOf <$> pre) ∧
         filter (λ layer, visible layer = true) rest =
           pre ++ filter (λ layer, visible layer = true) (leftToRender o) ∧
         (tracked w → NoDup (ids rest) →
          (∀ sp, sp ∈ stage w → ofLayer sp ∉ ids rest) →
          tracked w1 ∧ NoDup (ids (leftToRender o)) ∧
          (∀ sp, sp ∈ stage w1 → ofLayer sp ∉ ids (leftToRender o))).
Proof.
  induction rest as [|layer rest IH]; intros w w1 o Hrun Hc; simpl in Hrun.
  - injection Hrun as <- <-. split_and!; try done.
    exists []. split_and!; try done.
    by rewrite app_nil_r.
  - destruct (visible layer) eqn:Hv.
    + destruct (textureCache w !! texturePath layer) as [tex|] eqn:Hl.
      * assert (Hc' : cacheCoherent (addSprite layer tex w)) by done.
        destruct (IH _ _ _ Hrun Hc') as (Hcache & Hpend & Hp & pre & Hs & Hf & Ht).
        split_and!; try done.
        exists (layer :: pre). split_and!.
        -- rewrite Hs, shown_addSprite, <- (assoc_L (++)). simpl.
           by rewrite (Hc _ _ Hl).
        -- rewrite filter_cons_True by done. by rewrite Hf.
        -- intros Htr Hnd Hfresh. unfold ids in Hnd. rewrite fmap_cons in Hnd.
           apply NoDup_cons in Hnd as [Hni Hnd]. apply Ht; [|done|].
           ++ intros sp. simpl. rewrite elem_of_app, list_elem_of_singleton.
              intros [Hin| ->].
              ** rewrite lookup_insert_ne; [by apply Htr|].
                 intros Heq. apply (Hfresh sp Hin). unfold ids.
                 rewrite fmap_cons, <- Heq. by left.
              ** simpl. by rewrite lookup_insert_eq.
           ++ intros sp. simpl. rewrite elem_of_app, list_elem_of_singleton.
              intros [Hin| ->].
              ** intros H. apply (Hfresh sp Hin). unfold ids.
                 rewrite fmap_cons. by right.
              ** done.
      * injection Hrun as <- <-. split_and!; try done.
        -- by intros p [= <-].
        -- exists []. split_and!; try done. by rewrite app_nil_r.
    + destruct (IH _ _ _ Hrun Hc) as (Hcache & Hpend & Hp & pre & Hs & Hf & Ht).
      split_and!; try done. exists pre. split_and!; try done.
      * rewrite filter_cons_False by (by rewrite Hv). done.
      * intros Htr Hnd Hfresh. unfold ids in Hnd. rewrite fmap_cons in Hnd.
        apply NoDup_cons in Hnd as [Hni Hnd]. apply Ht; [done|done|].
        intros sp Hin H. apply (Hfresh sp Hin). unfold ids.
        rewrite fmap_cons. by right.
Qed.

Lemma renderTrace_no_pending n w :
  pending w = [] → renderTrace (replicate n (LoadResolves 0)) w = w.
Proof.
  intros Hp. induction n as [|n IH]; [done|].
  simpl. unfold settleLoad. rewrite Hp. simpl. apply IH.
Qed.

Lemma clearSprites_tracked w : tracked w → stage (clearSprites w) = [].
Proof.
  unfold tracked. simpl. generalize (stage w) as l.
  induction l as [|sp l IH]; intros Ht; [done|].
  rewrite filter_cons_False.
  - apply IH. intros sp' Hin. apply Ht. by right.
  - intros H. apply (H (ofLayer sp) sp); [|done]. apply Ht. by left.
Qed.

(** A pass that goes on alone from the state its loop has reached: when it
    has finished, every visible layer it had to render is shown, in order. *)
Lemma finish_alone n : ∀ rest w w1 o,
  renderLoop rest w = (w1, o) → cacheCoherent w → pending w = [] →
  let w' := renderTrace (replicate n (LoadResolves 0)) (suspend o w1) in
  pending w' = [] →
  shown w' = shown w ++ (spriteOf <$> filter (λ layer, visible layer = true) rest) ∧
  cacheCoherent w' ∧
  (tracked w → NoDup (ids rest) →
   (∀ sp, sp ∈ stage w → ofLayer sp ∉ ids rest) → tracked w').
Proof.
  induction n as [|n IH]; intros rest w w1 o Hrun Hc Hp w' Hdone;
    destruct (renderLoop_spec _ _ _ _ Hrun Hc)
      as (Hcache & Hpend & Hw & pre & Hs & Hf & Ht).
  - unfold w' in *. simpl in *. rewrite Hpend, Hp in Hdone.
    destruct o as [p|]; [done|]. simpl in Hf. rewrite app_nil_r in Hf.
    split_and!.
    + unfold shown in *. simpl. by rewrite Hf.
    + intros path tex. simpl. rewrite Hcache. apply Hc.
    + intros Htr Hnd Hfr. destruct (Ht Htr Hnd Hfr) as (Htr' & _). done.
  - destruct o as [p|].
    + destruct (Hw p eq_refl) as [Hvis Hmiss].
      unfold w' in *. simpl in Hdone |- *.
      unfold settleLoad in Hdone |- *. simpl in Hdone |- *.
      rewrite Hpend, Hp in Hdone |- *. simpl in Hdone |- *.
      set (tex := {| source := texturePath (awaiting p) |}) in *.
      set (w2 := addSprite (awaiting p) tex
                   (cacheTexture (texturePath (awaiting p)) tex (dropPending 0 _)))
        in *.
      destruct (renderLoop (remaining p) w2) as [w3 o3] eqn:Hrun2.
      assert (Hc2 : cacheCoherent w2).
      { intros path t. unfold w2. simpl. rewrite Hcache, lookup_insert.
        case_decide as Hd; [intros [= <-]; by rewrite <- Hd|apply Hc]. }
      assert (Hp2 : pending w2 = []).
      { unfold w2. simpl. by rewrite Hpend, Hp. }
      destruct (IH _ _ _ _ Hrun2 Hc2 Hp2 Hdone) as (Hs' & Hc' & Ht').
      split_and!; [|done|].
      * rewrite Hs'. unfold w2. rewrite shown_addSprite.
        unfold shown at 1. simpl. fold (shown w1). rewrite Hs, Hf. simpl.
        rewrite filter_cons_True by done.
        rewrite fmap_app, fmap_cons, <- !(assoc_L (++)). done.
      * intros Htr Hnd Hfr. destruct (Ht Htr Hnd Hfr) as (Htr1 & Hnd1 & Hfr1).
        unfold leftToRender in Hnd1, Hfr1. unfold ids in Hnd1. rewrite fmap_cons in Hnd1.
        apply NoDup_cons in Hnd1 as [Hni1 Hnd1].
        apply Ht'; [|done|].
        -- intros sp. unfold w2. simpl. rewrite elem_of_app, list_elem_of_singleton.
           intros [Hin| ->].
           ++ rewrite lookup_insert_ne; [by apply Htr1|].
              intros Heq. apply (Hfr1 sp Hin). unfold ids.
              rewrite fmap_cons, <- Heq. by left.
           ++ simpl. by rewrite lookup_insert_eq.
        -- intros sp. unfold w2. simpl. rewrite elem_of_app, list_elem_of_singleton.
           intros [Hin| ->].
           ++ intros H. apply (Hfr1 sp Hin). unfold ids. rewrite fmap_cons. by right.
           ++ done.
    + unfold w' in *. simpl in Hf. rewrite app_nil_r in Hf.
      assert (Hp1 : pending (suspend None w1) = []).
      { simpl. by rewrite Hpend, Hp. }
      rewrite renderTrace_no_pending by done.
      split_and!.
      * unfold shown in *. simpl. by rewrite Hf.
      * intros path tex. simpl. rewrite Hcache. apply Hc.
      * intros Htr Hnd Hfr. destruct (Ht Htr Hnd Hfr) as (Htr' & _). done.
Qed.

Lemma insertByZIndex_perm a l : insertByZIndex a l ≡ₚ a :: l.
Proof.
  induction l as [|b l IH]; [done|]. simpl.
  destruct (zIndex a <=? zIndex b); [done|].
  rewrite IH. apply Permutation_swap.
Qed.

Lemma sortByZIndex_perm ls : sortByZIndex ls ≡ₚ ls.
Proof.
  induction ls as [|a ls IH]; [done|]. simpl.
  by rewrite insertByZIndex_perm, IH.
Qed.

Lemma insertByZIndex_sorted a l :
  Sorted (λ b c, zIndex b ≤ zIndex c) l →
  Sorted (λ b c, zIndex b ≤ zIndex c) (insertByZIndex a l).
Proof.
  induction l as [|b l IH]; intros Hs; simpl.
  - by repeat constructor.
  - destruct (zIndex a <=? zIndex b) eqn:E.
    + constructor; [done|]. constructor. lia.
    + apply Sorted_inv in Hs as [Hs Hhd]. constructor; [by apply IH|].
      destruct l as [|c l]; simpl.
      * constructor. lia.
      * destruct (zIndex a <=? zIndex c); constructor; [lia|].
        by apply HdRel_inv in Hhd.
Qed.

(** The paint order of a pass is by ascending [zIndex]. *)
Lemma sortByZIndex_sorted ls :
  Sorted (λ b c, zIndex b ≤ zIndex c) (sortByZIndex ls).
Proof.
  induction ls as [|a ls IH]; simpl; [constructor|].
  by apply insertByZIndex_sorted.
Qed.

(** A pass that runs alone on a surface whose sprites are all held by
    [layersRef]. *)
Lemma pass_alone snapshot n w :
  pending w = [] → tracked w → cacheCoherent w →
  let w' := renderTrace (passAlone snapshot n) w in
  pending w' = [] →
  shown w' = rendering snapshot ∧ cacheCoherent w' ∧
  (NoDup (ids snapshot) → tracked w').
Proof.
  intros Hp Ht Hc w' Hdone. unfold w', passAlone in *. simpl in *.
  unfold startPass in *.
  destruct (renderLoop (sortByZIndex snapshot) (clearSprites w)) as [w1 o] eqn:Hrun.
  assert (Hst : stage (clearSprites w) = []) by (by apply clearSprites_tracked).
  destruct (finish_alone n _ _ _ _ Hrun) as (Hs & Hc' & Ht'); try done.
  split_and!; try done.
  - rewrite Hs. unfold shown at 1. by rewrite Hst.
  - intros Hnd. apply Ht'.
    + intros sp. rewrite Hst. intros H. by apply elem_of_nil in H.
    + unfold ids. by rewrite sortByZIndex_perm.
    + intros sp. rewrite Hst. intros H. by apply elem_of_nil in H.
Qed.

Lemma renderTrace_app e1 e2 w :
  renderTrace (e1 ++ e2) w = renderTrace e2 (renderTrace e1 w).
Proof. unfold renderTrace. apply foldl_app. Qed.

Lemma inTurn_shows_last passes : ∀ snapshot n w,
  pending w = [] → tracked w → cacheCoherent w →
  inTurn (passes ++ [(snapshot, n)]) w →
  shown (renderTrace (tracesOf (passes ++ [(snapshot, n)])) w) =
    rendering snapshot.
Proof.
  induction passes as [|[ls k] passes IH]; intros snapshot n w Hp Ht Hc Hin.
  - destruct Hin as (Hdone & _ & _). unfold tracesOf. simpl in *.
    rewrite app_nil_r.
    by destruct (pass_alone snapshot n w Hp Ht Hc Hdone) as (Hs & _).
  - destruct Hin as (Hdone & Hnd & Hin). simpl in Hdone, Hnd, Hin.
    destruct (pass_alone ls k w Hp Ht Hc Hdone) as (_ & Hc' & Ht').
    unfold tracesOf in *. simpl.
    change (PassStarts ls :: replicate k (LoadResolves 0)
              ++ mjoin ((λ p, passAlone p.1 p.2) <$> passes ++ [(snapshot, n)]))
      with (passAlone ls k
              ++ mjoin ((λ p, passAlone p.1 p.2) <$> passes ++ [(snapshot, n)])).
    rewrite renderTrace_app. apply IH; auto.
Qed.

(** A pass on [a] is suspended at its load when a pass on the empty snapshot
    starts and finishes; the load then resolves. No pass is pending any
    more, the newest pass was to show nothing, and the stage shows the sprite
    of [a], added by the older pass. *)
Lemma stale_pass_overwrites_newer :
  let w := renderTrace [PassStarts [layerA]; PassStarts []; LoadResolves 0]
             blankSurface in
  pending w = [] ∧ rendering [] = [] ∧
  shown w = [spriteOf layerA] ∧ shown w ≠ rendering [].
Proof. by split_and!. Qed.

(** Two passes on the same snapshot that overlap: both wait for the texture
    of [a], and both add a sprite for it. *)
Lemma overlapping_passes_duplicate_sprites :
  let w := renderTrace [PassStarts [layerA]; PassStarts [layerA];
                        LoadResolves 0; LoadResolves 0] blankSurface in
  pending w = [] ∧ rendering [layerA] = [spriteOf layerA] ∧
  shown w = [spriteOf layerA; spriteOf layerA].
Proof. by split_and!. Qed.

(** A load that fails is skipped and the pass goes on: [a] waits for
    ["/a.svg"], which is rejected, and [b], with a texture of its own, is
    rendered. *)
Lemma rejected_load_is_skipped :
  let b := withId (houseAt "/b.svg") "b" in
  let w := renderTrace [PassStarts [layerA; b]; LoadRejects 0; LoadResolves 0]
             blankSurface in
  pending w = [] ∧ shown w = [spriteOf b].
Proof. by split_and!. Qed.

(** C10, amended. A pass of [renderLayers] carries no generation number, and
    a load that settles for an older pass is not discarded: its sprite is
    added to the stage. When the passes take turns, each one starting on a
    snapshot with pairwise distinct ids after the previous one has finished,
    all its loads having resolved, the surface after the last pass shows what
    that pass renders from its snapshot: one sprite per visible layer, in
    ascending [zIndex] order, and nothing from the earlier passes. *)
Theorem passes_in_turn_show_newest (passes : list (list Layer * nat))
    (snapshot : list Layer) (n : nat) :
  inTurn (passes ++ [(snapshot, n)]) blankSurface →
  shown (renderTrace (tracesOf (passes ++ [(snapshot, n)])) blankSurface) =
    rendering snapshot ∧
  Sorted (λ b c, zIndex b ≤ zIndex c) (sortByZIndex snapshot).
Proof.
  intros Hin. split; [|apply sortByZIndex_sorted].
  apply inTurn_shows_last; try done.
  intros sp H. by apply elem_of_nil in H.
Qed.

Lemma passes_in_turn_show_newest_witness :
  shown (renderTrace
           (tracesOf ([([layerA; layerB], 1%nat)] ++ [([withZIndex layerC 2; layerB], 0%nat)]))
           blankSurface) =
    rendering [withZIndex layerC 2; layerB].
Proof.
  apply (passes_in_turn_show_newest [([layerA; layerB], 1%nat)]
           [withZIndex layerC 2; layerB] 0).
  simpl. repeat split; try reflexivity; compute_done.
Defined.

(** ** C8: layer ids *)

Lemma layerIdAt_inj now now' : layerIdAt now = layerIdAt now' → now = now'.
Proof.
  unfold layerIdAt. intros H. cbn in H. injection H as H.
  by apply (inj pretty).
Qed.

(** Two [addLayer] calls at the same clock reading: both layers get the id
    [layer_1000]. *)
Lemma addLayer_same_tick_same_id :
  let r1 := addLayer house 1000 1000 (initialState []) in
  let r2 := addLayer house 1000 1000 r1.2 in
  r1.1 = r2.1 ∧
  ids (layers r2.2) = ["layer_1000"%string; "layer_1000"%string] ∧
  ¬ NoDup (ids (layers r2.2)).
Proof.
  split_and!; [done|done|]. intros H. vm_compute in H.
  apply NoDup_cons in H as [H _]. apply H. by left.
Qed.

Lemma addLayer_ids newLayer now now' s :
  ids (layers (addLayer newLayer now now' s).2) =
    ids (layers s) ++ [layerIdAt now].
Proof. unfold ids. simpl. by rewrite fmap_app. Qed.

Lemma addLayer_NoDup newLayer now now' s :
  NoDup (ids (layers (addLayer newLayer now now' s).2)) ↔
  NoDup (ids (layers s)) ∧ layerIdAt now ∉ ids (layers s).
Proof.
  rewrite addLayer_ids, NoDup_app. split.
  - intros (Hnd & Hni & _). split; [done|]. intros Hin.
    apply (Hni _ Hin). by left.
  - intros [Hnd Hni]. split_and!; [done| |apply NoDup_singleton].
    intros i Hin ->%list_elem_of_singleton. done.
Qed.

(** *** The invariant *)

Lemma ids_removeId i ls j : j ∈ ids (removeId i ls) → j ∈ ids ls ∧ j ≠ i.
Proof.
  unfold ids, removeId. intros (l & -> & [Hne Hin]%list_elem_of_filter)%list_elem_of_fmap.
  split; [by apply list_elem_of_fmap_2|done].
Qed.

Lemma NoDup_ids_removeId i ls : NoDup (ids ls) → NoDup (ids (removeId i ls)).
Proof.
  intros Hnd. eapply sublist_NoDup; [done|].
  unfold ids, removeId. apply fmap_sublist, sublist_filter.
Qed.

Lemma ids_mapAt i f ls :
  (∀ l, id l = i → id (f l) = i) → ids (mapAt i f ls) = ids ls.
Proof.
  intros Hf. unfold ids, mapAt. rewrite <- list_fmap_compose.
  apply fmap_agree. intros l _. simpl. case_decide as Hd; [|done].
  by rewrite Hf.
Qed.

Lemma ids_renumbered ls :
  ids (imap (λ index layer, withZIndex layer (Z.of_nat index)) ls) = ids ls.
Proof.
  unfold ids. apply list_eq. intros k.
  rewrite !list_lookup_fmap, list_lookup_imap.
  by destruct (ls !! k).
Qed.

Lemma asLayer_id b l : asLayer b = Some l → id l ∈ snapshotIds (Some b).
Proof.
  destruct b as [p|ls]; [|done]. unfold asLayer. simpl.
  destruct (p_id p) as [i|]; [|done]. simpl.
  intros H. repeat (match type of H with
                    | (?o ≫= _) = Some _ => destruct o; simpl in H; [|done]
                    end).
  injection H as <-. simpl. by left.
Qed.

Lemma removedLayer_known a l : removedLayer a = Some l → id l ∈ actionIds a.
Proof.
  unfold removedLayer, actionIds.
  destruct (atype a); try done. destruct (before a) as [b|]; [|done].
  destruct (layerId a) as [i|]; [|done]. destruct (truthy (Some i)); [|done].
  intros H%asLayer_id. apply elem_of_app. by left.
Qed.

Lemma addedLayer_known a l : addedLayer a = Some l → id l ∈ actionIds a.
Proof.
  unfold addedLayer, actionIds.
  destruct (atype a); try done. destruct (after a) as [b|]; [|done].
  intros H%asLayer_id. apply elem_of_app. by right.
Qed.

Lemma compat_mono ls h1 h2 h1' h2' :
  compat ls h1 h2 →
  (∀ r, r ∈ h1' → r ∈ h1) → (∀ r, r ∈ h2' → r ∈ h2) →
  compat ls h1' h2'.
Proof.
  intros (Hnd & Hr & Ha) H1 H2. split_and!; [done| |].
  - intros r l Hin. apply Hr. by apply H1.
  - intros x l Hin. apply Ha. by apply H2.
Qed.

Lemma actionOk_mono a h1 h2 h1' h2' :
  actionOk a h1 h2 →
  (∀ r, r ∈ h1' → r ∈ h1) → (∀ r, r ∈ h2' → r ∈ h2) →
  actionOk a h1' h2'.
Proof.
  intros (Hadd & Hrm & Hupd & Hre) H1 H2. split_and!.
  - intros l Hl. destruct (Hadd l Hl) as (? & ? & Hfr). split_and!; [done|done|].
    intros r Hin. apply Hfr. by apply H1.
  - intros l Hl. destruct (Hrm l Hl) as (? & Hd). split; [done|].
    intros r l' Hin. apply Hd. by apply H1.
  - done.
  - intros Ht. destruct (Hre Ht) as [Hb Ha]. split; intros ls Hls.
    + by apply (compat_mono ls h1 h2); [apply Hb|..].
    + by apply (compat_mono ls h1 h2); [apply Ha|..].
Qed.

(** An action appended to the log does not disturb an earlier action when
    the layer it adds, if any, is unknown to that action. *)
Lemma actionOk_snoc a h1 h2 x :
  actionOk a h1 h2 →
  (∀ l, addedLayer x = Some l → id l ∉ actionIds a) →
  actionOk a h1 (h2 ++ [x]).
Proof.
  intros (Hadd & Hrm & Hupd & Hre) Hx. split_and!; try done.
  intros Ht. destruct (Hre Ht) as [Hb Ha].
  split; intros ls Hls.
  - destruct (Hb ls Hls) as (Hnd & Hr & Hfu). split_and!; [done|done|].
    intros y l [Hin| ->%list_elem_of_singleton]%elem_of_app Hy; [by eapply Hfu|].
    intros Hin. apply (Hx l Hy). unfold actionIds. rewrite Hls. simpl.
    apply elem_of_app. by left.
  - destruct (Ha ls Hls) as (Hnd & Hr & Hfu). split_and!; [done|done|].
    intros y l [Hin| ->%list_elem_of_singleton]%elem_of_app Hy; [by eapply Hfu|].
    intros Hin. apply (Hx l Hy). unfold actionIds. rewrite Hls. simpl.
    apply elem_of_app. by right.
Qed.

Lemma histOk_take n h : histOk h → histOk (take n h).
Proof.
  intros Hok k a Hk. apply lookup_take_Some in Hk as [Hk Hlt].
  apply (actionOk_mono a (take k h) (drop (S k) h)); [by apply Hok| |].
  - intros r. rewrite take_take. replace (k `min` n)%nat with k by lia. done.
  - intros r [j Hj]%list_elem_of_lookup. rewrite lookup_drop in Hj.
    apply lookup_take_Some in Hj as [Hj _]. apply list_elem_of_lookup.
    exists j. by rewrite lookup_drop.
Qed.

Lemma histOk_drop n h : histOk h → histOk (drop n h).
Proof.
  intros Hok k a Hk. rewrite lookup_drop in Hk.
  apply (actionOk_mono a (take (n + k) h) (drop (S (n + k)) h)); [by apply Hok| |].
  - intros r [j [Hj Hlt]]%elem_of_take. rewrite lookup_drop in Hj.
    apply elem_of_take. exists (n + j)%nat. split; [done|lia].
  - intros r. rewrite drop_drop. by replace (n + S k)%nat with (S (n + k)) by lia.
Qed.

Lemma histOk_snoc h x :
  histOk h → actionOk x h [] →
  (∀ l, addedLayer x = Some l → ∀ r, r ∈ h → id l ∉ actionIds r) →
  histOk (h ++ [x]).
Proof.
  intros Hok Hx Hfresh k a Hk.
  apply lookup_snoc_Some in Hk as [[Hlt Hk]|[-> ->]].
  - rewrite take_app_le by lia. rewrite drop_app_le by lia.
    apply actionOk_snoc; [by apply Hok|].
    intros l Hl. apply (Hfresh l Hl). by eapply list_elem_of_lookup_2.
  - rewrite take_app_length. rewrite drop_ge by (rewrite length_app; simpl; lia).
    done.
Qed.

Lemma lastN_subseteq {A} n (l : list A) a : a ∈ lastN n l → a ∈ l.
Proof. unfold lastN. apply subseteq_drop. Qed.

(** The invariant after a recording: the cursor is on the new last entry. *)
Lemma Inv_record ls h idx ls' x :
  Inv ls h idx →
  NoDup (ids ls') →
  (∀ r l, r ∈ past h idx → removedLayer r = Some l → id l ∉ ids ls') →
  (∀ l, removedLayer x = Some l → id l ∉ ids ls') →
  actionOk x (past h idx) [] →
  let h' := lastN 20 (past h idx ++ [x]) in
  Inv ls' h' (Z.of_nat (length h') - 1).
Proof.
  intros (Hnd & Hc & Hp & Hf & Hok) Hnd' Hp' Hx Hax h'.
  assert (Hlen : (1 ≤ length h')%nat).
  { unfold h'. rewrite lastN_length, length_app. simpl. lia. }
  split_and!; [done|lia|lia| | |].
  - unfold past. replace (Z.to_nat (Z.of_nat (length h') - 1 + 1)) with (length h') by lia.
    rewrite take_ge by lia.
    intros r l [Hin| ->%list_elem_of_singleton]%lastN_subseteq%elem_of_app; eauto.
  - unfold future. replace (Z.to_nat (Z.of_nat (length h') - 1 + 1)) with (length h') by lia.
    rewrite drop_ge by lia. intros y l Hin. by apply elem_of_nil in Hin.
  - unfold h', lastN. apply histOk_drop, histOk_snoc; [by apply histOk_take|done|].
    intros l Hl r Hr. destruct Hax as (Hadd & _). by apply (Hadd l Hl).
Qed.

Lemma addHistoryAction_history a now s :
  cursorOk s →
  let s' := addHistoryAction a now s in
  (history s' = history s ∧ historyIndex s' = historyIndex s) ∨
  (history s' = lastN 20 (past (history s) (historyIndex s) ++ [stamp a now]) ∧
   historyIndex s' = Z.of_nat (length (history s')) - 1).
Proof.
  intros Hc s'. destruct (isUndoRedoInProgress s) eqn:Hu.
  { left. unfold s'. by rewrite addHistoryAction_suppressed by (by left). }
  destruct (isBatchingActions s) eqn:Hb.
  { left. unfold s'. by rewrite addHistoryAction_suppressed by (by right). }
  right. destruct (addHistoryAction_cursor a now s Hu Hb Hc) as [Hi _].
  split; [|done]. unfold s'.
  rewrite addHistoryAction_recorded by (done || apply Hc). done.
Qed.

(** A mutation: the store becomes [layers s0] and the action is recorded,
    unless recording is suppressed. *)
Lemma inv_addHistoryAction a now s0 ls :
  Inv ls (history s0) (historyIndex s0) →
  NoDup (ids (layers s0)) →
  (∀ r l, r ∈ past (history s0) (historyIndex s0) →
     removedLayer r = Some l → id l ∉ ids (layers s0)) →
  (∀ x l, x ∈ future (history s0) (historyIndex s0) →
     addedLayer x = Some l → id l ∉ ids (layers s0)) →
  (∀ l, removedLayer (stamp a now) = Some l → id l ∉ ids (layers s0)) →
  actionOk (stamp a now) (past (history s0) (historyIndex s0)) [] →
  inv (addHistoryAction a now s0).
Proof.
  intros HI Hnd Hp Hf Hx Hax. unfold inv.
  rewrite (proj1 (addHistoryAction_layers _ _ _)).
  assert (Hc : cursorOk s0) by (destruct HI as (_ & Hc & _); done).
  destruct (addHistoryAction_history a now s0 Hc) as [[-> ->]|[Hh Hi]].
  - destruct HI as (_ & [? ?] & _ & _ & ?). unfold Inv. by split_and!.
  - rewrite Hi, Hh. by apply (Inv_record ls).
Qed.

Lemma at_index_Some {A} (h : list A) idx a :
  at_index h idx = Some a → 0 ≤ idx ∧ h !! Z.to_nat idx = Some a.
Proof. unfold at_index. destruct (idx <? 0) eqn:E; [done|]. split; [lia|done]. Qed.

Lemma at_index_in_range {A} (h : list A) idx :
  0 ≤ idx < Z.of_nat (length h) → ∃ a, at_index h idx = Some a.
Proof.
  intros Hr. unfold at_index. destruct (idx <? 0) eqn:E; [lia|].
  apply lookup_lt_is_Some. lia.
Qed.

(** The applied part and the redo tail on both sides of an action. *)
Lemma past_future_split h k a :
  h !! k = Some a →
  past h (Z.of_nat k) = take k h ++ [a] ∧
  past h (Z.of_nat k - 1) = take k h ∧
  future h (Z.of_nat k - 1) = a :: drop (S k) h ∧
  future h (Z.of_nat k) = drop (S k) h.
Proof.
  intros Hk. unfold past, future.
  replace (Z.to_nat (Z.of_nat k + 1)) with (S k) by lia.
  replace (Z.to_nat (Z.of_nat k - 1 + 1)) with k by lia.
  split_and!; try done; [by apply take_S_r|by apply drop_S].
Qed.

(** An action later in the log adds no layer known to an earlier action. *)
Lemma later_add_unknown h k a x l :
  histOk h → h !! k = Some a → x ∈ drop (S k) h → addedLayer x = Some l →
  id l ∉ actionIds a.
Proof.
  intros Hok Hk [j Hj]%list_elem_of_lookup Hl. rewrite lookup_drop in Hj.
  destruct (Hok _ _ Hj) as (Hadd & _). destruct (Hadd l Hl) as (_ & _ & Hfr).
  apply Hfr. apply elem_of_take. exists k. split; [done|lia].
Qed.

Lemma knownIds_fresh s i :
  i ∉ knownIds s →
  (i ∉ ids (layers s)) ∧ (∀ r, r ∈ history s → i ∉ actionIds r).
Proof.
  unfold knownIds. rewrite not_elem_of_app. intros [Hl Hh]. split; [done|].
  intros r Hr Hin. apply Hh. apply list_elem_of_bind. by exists r.
Qed.

Lemma past_subseteq h idx r : r ∈ past h idx → r ∈ h.
Proof. apply subseteq_take. Qed.

Lemma future_subseteq h idx r : r ∈ future h idx → r ∈ h.
Proof. apply subseteq_drop. Qed.

Lemma inv_addLayer newLayer now now' s :
  inv s → layerIdAt now ∉ knownIds s → inv (addLayer newLayer now now' s).2.
Proof.
  intros HI [Hfs Hfh]%knownIds_fresh.
  set (layer := withId newLayer (layerIdAt now)).
  set (a := {| u_type := Add; u_layerId := Some (layerIdAt now);
               u_before := None;
               u_after := Some (SnapFields (asPartial layer)) |}).
  assert (Hadd : addedLayer (stamp a now') = Some layer).
  { unfold addedLayer, stamp, a. cbn [atype after u_type u_after].
    apply asLayer_asPartial. }
  assert (H : inv (addHistoryAction a now' (setLayers (layers s ++ [layer]) s))).
  { destruct HI as (Hnd & Hc & Hp & Hf & Hok).
    apply (inv_addHistoryAction _ _ _ (layers s)); simpl.
    - done.
    - change (NoDup (ids (layers (addLayer newLayer now now' s).2))).
      apply addLayer_NoDup. by split.
    - intros r l Hr Hl. unfold ids. rewrite fmap_app, not_elem_of_app. split.
      + by apply (Hp r).
      + simpl. rewrite list_elem_of_singleton. intros Heq.
        apply (Hfh r); [by eapply past_subseteq|].
        rewrite <- Heq. by apply removedLayer_known.
    - intros x l Hx Hl. unfold ids. rewrite fmap_app, not_elem_of_app. split.
      + by apply (Hf x).
      + simpl. rewrite list_elem_of_singleton. intros Heq.
        apply (Hfh x); [by eapply future_subseteq|].
        rewrite <- Heq. by apply addedLayer_known.
    - intros l Hl. unfold removedLayer, stamp, a in Hl. done.
    - split_and!.
      + intros l Hl. rewrite Hadd in Hl. injection Hl as <-.
        split_and!; [done|apply layerIdAt_nonempty|].
        intros r Hr. apply Hfh. by eapply past_subseteq.
      + intros l Hl. unfold removedLayer, stamp, a in Hl. done.
      + intros [Ht|Ht]; done.
      + intros Ht. done. }
  unfold inv in *. simpl.
  by rewrite (proj1 (addHistoryAction_layers _ _ _)) in H.
Qed.

Lemma inv_removeLayer i now s : inv s → inv (removeLayer i now s).
Proof.
  intros HI. unfold removeLayer.
  destruct (findById i (layers s)) as [l|] eqn:Hfind; [|done].
  apply findById_Some in Hfind as [Hin Hid].
  set (a := {| u_type := Remove; u_layerId := Some i;
               u_before := Some (SnapFields (asPartial l)); u_after := None |}).
  assert (Hrm : ∀ l', removedLayer (stamp a now) = Some l' → l' = l).
  { intros l'. unfold removedLayer, stamp, a.
    cbn [atype before layerId u_type u_before u_layerId].
    destruct (truthy (Some i)); [|done]. rewrite asLayer_asPartial. congruence. }
  assert (H : inv (addHistoryAction a now
                     (setLayers (removeId i (layers s))
                        (handleLayerChange (removeId i (layers s)) s)))).
  { destruct HI as (Hnd & Hc & Hp & Hf & Hok).
    apply (inv_addHistoryAction _ _ _ (layers s)); simpl.
    - done.
    - by apply NoDup_ids_removeId.
    - intros r l' Hr Hl [Hin' _]%ids_removeId. by apply (Hp r l').
    - intros x l' Hx Hl [Hin' _]%ids_removeId. by apply (Hf x l').
    - intros l' ->%Hrm [_ Hne]%ids_removeId. done.
    - split_and!.
      + intros l' Hl. unfold addedLayer, stamp, a in Hl. done.
      + intros l' Hl. pose proof (Hrm l' Hl) as ->. split.
        * simpl. by rewrite Hid.
        * intros r l' Hr Hl' Heq. apply (Hp r l' Hr Hl').
          rewrite Heq. unfold ids. by apply list_elem_of_fmap_2.
      + intros [Ht|Ht]; done.
      + intros Ht. done. }
  case_decide; exact H.
Qed.

Lemma spread_keeps_id i u l :
  (p_id u = None ∨ p_id u = Some i) → id l = i → id (spread l u) = i.
Proof. intros [H|H] Hid; simpl; by rewrite H. Qed.

Lemma inv_same_ids ls ls' h idx :
  ids ls' = ids ls → Inv ls h idx → Inv ls' h idx.
Proof. unfold Inv. by intros ->. Qed.

Lemma inv_updateLayer i updates now s :
  inv s → (p_id updates = None ∨ p_id updates = Some i) →
  inv (updateLayer i updates now s).
Proof.
  intros HI Hpid. unfold updateLayer.
  destruct (findById i (layers s)) as [l|] eqn:Hfind; [|done].
  apply findById_Some in Hfind as [Hin Hid].
  change ((λ layer, if decide (id layer = i) then spread layer updates else layer)
            <$> layers s)
    with (mapAt i (λ layer, spread layer updates) (layers s)).
  set (upd := mapAt i (λ layer, spread layer updates) (layers s)).
  assert (Hids : ids upd = ids (layers s)).
  { apply ids_mapAt. intros l'. by apply spread_keeps_id. }
  destruct (inv_same_ids _ upd _ _ Hids HI) as (Hnd & Hc & Hp & Hf & Hok).
  apply (inv_addHistoryAction _ _ _ (layers s)); simpl; try done.
  split_and!; try done.
  intros _ i' [= <-]. split.
  - intros b [= <-]. right. simpl. by rewrite Hid.
  - intros x [= <-]. right. unfold asPartial. cbn [p_id].
    f_equal. by apply spread_keeps_id.
Qed.

Lemma inv_moveLayer i pos now s : inv s → inv (moveLayer i pos now s).
Proof.
  intros HI. unfold moveLayer.
  destruct (findById i (layers s)) as [l|] eqn:Hfind; [|done].
  change ((λ layer, if decide (id layer = i) then withPosition layer pos else layer)
            <$> layers s)
    with (mapAt i (λ layer, withPosition layer pos) (layers s)).
  set (upd := mapAt i (λ layer, withPosition layer pos) (layers s)).
  assert (Hids : ids upd = ids (layers s)) by (by apply ids_mapAt).
  destruct (inv_same_ids _ upd _ _ Hids HI) as (Hnd & Hc & Hp & Hf & Hok).
  apply (inv_addHistoryAction _ _ _ (layers s)); simpl; try done.
  split_and!; try done.
  intros _ i' [= <-]. split.
  - intros b [= <-]. by left.
  - intros x [= <-]. by left.
Qed.

Lemma inv_reorderLayers orderedIds now s :
  inv s → NoDup orderedIds → inv (reorderLayers orderedIds now s).
Proof.
  intros HI Hord. unfold reorderLayers.
  set (upd := reordered (layerMapOf (layers s)) orderedIds).
  assert (Hids : ids upd = filter (λ i, i ∈ ids (layers s)) orderedIds)
    by apply reordered_ids.
  assert (Hsub : ∀ j, j ∈ ids upd → j ∈ ids (layers s)).
  { intros j. rewrite Hids. by intros [? _]%list_elem_of_filter. }
  pose proof HI as (Hnd & Hc & Hp & Hf & Hok).
  apply (inv_addHistoryAction _ _ _ (layers s)); simpl.
  - exact HI.
  - rewrite Hids. by apply NoDup_filter.
  - intros r l Hr Hl Hin%Hsub. by apply (Hp r l).
  - intros x l Hx Hl Hin%Hsub. by apply (Hf x l).
  - done.
  - split_and!; [done|done|by intros [Ht|Ht]|].
    intros _. split; intros ls [= <-].
    + split_and!; [done|done|]. intros x l Hx. by apply elem_of_nil in Hx.
    + unfold compat. rewrite ids_renumbered.
      split_and!; [done|done|]. intros x l Hx. by apply elem_of_nil in Hx.
Qed.

Lemma inv_clearLayers now s : inv s → inv (clearLayers now s).
Proof.
  intros HI. unfold clearLayers.
  apply (inv_addHistoryAction _ _ _ (layers s)); simpl.
  - exact HI.
  - constructor.
  - intros r l _ _ H. by apply elem_of_nil in H.
  - intros r l _ _ H. by apply elem_of_nil in H.
  - done.
  - split_and!; [done|done|by intros [Ht|Ht]|done].
Qed.

Lemma removeId_not_in i ls : i ∉ ids (removeId i ls).
Proof. by intros [_ ?]%ids_removeId. Qed.

Lemma ids_snoc ls l : ids (ls ++ [l]) = ids ls ++ [id l].
Proof. unfold ids. by rewrite fmap_app. Qed.

Lemma spreadSnapshot_keeps_id i b l :
  keepsId i b → id l = i → id (spreadSnapshot l b) = i.
Proof. destruct b as [p|ls]; [|done]. apply spread_keeps_id. Qed.

(** The invariant when the cursor moves onto position [k - 1] or [k] of an
    unchanged log and the store becomes [X]. *)
Lemma Inv_at_cursor X h idx :
  histOk h → -1 ≤ idx < Z.of_nat (length h) → NoDup (ids X) →
  (∀ r l, r ∈ past h idx → removedLayer r = Some l → id l ∉ ids X) →
  (∀ x l, x ∈ future h idx → addedLayer x = Some l → id l ∉ ids X) →
  Inv X h idx.
Proof. intros ? [? ?] ? ? ?. unfold Inv. by split_and!. Qed.

Lemma Inv_undo ls h k a X :
  Inv ls h (Z.of_nat k) → h !! k = Some a → undoLayers a ls = Some X →
  Inv X h (Z.of_nat k - 1).
Proof.
  intros (Hnd & Hc & Hp & Hf & Hok) Hk HX.
  destruct (past_future_split h k a Hk) as (Hp1 & Hp2 & Hf1 & Hf2).
  rewrite Hp1 in Hp. rewrite Hf2 in Hf.
  pose proof (Hok k a Hk) as (Hadd & Hrm & Hupd & Hre).
  assert (Hpa : ∀ r l, r ∈ take k h → removedLayer r = Some l → id l ∉ ids ls).
  { intros r l Hr. apply Hp. apply elem_of_app. by left. }
  apply Inv_at_cursor; [done|lia|..]; rewrite ?Hp2, ?Hf1.
  all: unfold undoLayers in HX; destruct (atype a) eqn:Ht.
  (* NoDup *)
  - destruct (layerId a) as [i|]; [destruct (truthy (Some i))|];
      injection HX as <-; auto using NoDup_ids_removeId.
  - destruct (before a) as [b|] eqn:Hb; [|by injection HX as <-].
    destruct (layerId a) as [i|] eqn:Hi; [|by injection HX as <-].
    destruct (truthy (Some i)) eqn:Htr; [|by injection HX as <-].
    destruct (asLayer b) as [l|] eqn:Hl; [|done]. injection HX as <-.
    rewrite ids_snoc. apply NoDup_app. split_and!; [done| |apply NoDup_singleton].
    intros j Hj ->%list_elem_of_singleton. revert Hj.
    apply (Hp a l); [apply elem_of_app; right; by left|].
    unfold removedLayer. by rewrite Ht, Hb, Hi, Htr.
  - destruct (before a) as [b|] eqn:Hb; [|by injection HX as <-].
    destruct (layerId a) as [i|] eqn:Hi; [|by injection HX as <-].
    destruct (truthy (Some i)); injection HX as <-; [|done].
    destruct (Hupd (or_introl eq_refl) i eq_refl) as [Hkb _].
    fold (mapAt i (λ layer, spreadSnapshot layer b) ls).
    rewrite ids_mapAt; [done|]. intros l. apply spreadSnapshot_keeps_id. auto.
  - destruct (before a) as [b|] eqn:Hb; [|by injection HX as <-].
    destruct (layerId a) as [i|] eqn:Hi; [|by injection HX as <-].
    destruct (truthy (Some i)); injection HX as <-; [|done].
    destruct (Hupd (or_intror eq_refl) i eq_refl) as [Hkb _].
    fold (mapAt i (λ layer, spreadSnapshot layer b) ls).
    rewrite ids_mapAt; [done|]. intros l. apply spreadSnapshot_keeps_id. auto.
  - destruct (before a) as [[p|ls0]|] eqn:Hb; injection HX as <-; try done.
    destruct (Hre eq_refl) as [Hcb _]. by destruct (Hcb ls0 eq_refl).
  (* applied part *)
  - intros r l Hr Hl.
    destruct (layerId a) as [i|]; [destruct (truthy (Some i))|];
      injection HX as <-; eauto.
    intros [? _]%ids_removeId. by eapply Hpa.
  - intros r l' Hr Hl'.
    destruct (before a) as [b|] eqn:Hb; [|injection HX as <-; eauto].
    destruct (layerId a) as [i|] eqn:Hi; [|injection HX as <-; eauto].
    destruct (truthy (Some i)) eqn:Htr; [|injection HX as <-; eauto].
    destruct (asLayer b) as [l|] eqn:Hl; [|done]. injection HX as <-.
    rewrite ids_snoc, not_elem_of_app. split; [eauto|].
    rewrite list_elem_of_singleton.
    assert (Hrl : removedLayer a = Some l).
    { unfold removedLayer. by rewrite Ht, Hb, Hi, Htr. }
    destruct (Hrm l Hrl) as [_ Hd]. by apply (Hd r l').
  - intros r l Hr Hl.
    destruct (before a) as [b|] eqn:Hb; [|injection HX as <-; eauto].
    destruct (layerId a) as [i|] eqn:Hi; [|injection HX as <-; eauto].
    destruct (truthy (Some i)); injection HX as <-; [|eauto].
    destruct (Hupd (or_introl eq_refl) i eq_refl) as [Hkb _].
    fold (mapAt i (λ layer, spreadSnapshot layer b) ls).
    rewrite ids_mapAt; [eauto|]. intros l0. apply spreadSnapshot_keeps_id. auto.
  - intros r l Hr Hl.
    destruct (before a) as [b|] eqn:Hb; [|injection HX as <-; eauto].
    destruct (layerId a) as [i|] eqn:Hi; [|injection HX as <-; eauto].
    destruct (truthy (Some i)); injection HX as <-; [|eauto].
    destruct (Hupd (or_intror eq_refl) i eq_refl) as [Hkb _].
    fold (mapAt i (λ layer, spreadSnapshot layer b) ls).
    rewrite ids_mapAt; [eauto|]. intros l0. apply spreadSnapshot_keeps_id. auto.
  - intros r l Hr Hl.
    destruct (before a) as [[p|ls0]|] eqn:Hb; injection HX as <-; eauto.
    destruct (Hre eq_refl) as [Hcb _]. destruct (Hcb ls0 eq_refl) as (_ & H1 & _).
    eauto.
  (* redo tail *)
  - intros x l [->|Hx]%elem_of_cons Hl.
    + destruct (Hadd l Hl) as (Hlid & Hne & _). rewrite Hlid in HX.
      rewrite truthy_nonempty in HX by done. injection HX as <-.
      apply removeId_not_in.
    + destruct (layerId a) as [i|]; [destruct (truthy (Some i))|];
        injection HX as <-; eauto.
      intros [? _]%ids_removeId. by eapply Hf.
  - intros x l' [->|Hx]%elem_of_cons Hl'.
    { unfold addedLayer in Hl'. by rewrite Ht in Hl'. }
    destruct (before a) as [b|] eqn:Hb; [|injection HX as <-; eauto].
    destruct (layerId a) as [i|] eqn:Hi; [|injection HX as <-; eauto].
    destruct (truthy (Some i)) eqn:Htr; [|injection HX as <-; eauto].
    destruct (asLayer b) as [l|] eqn:Hl; [|done]. injection HX as <-.
    rewrite ids_snoc, not_elem_of_app. split; [eauto|].
    rewrite list_elem_of_singleton. intros Heq.
    apply (later_add_unknown h k a x l' Hok Hk Hx Hl').
    rewrite Heq. apply removedLayer_known.
    unfold removedLayer. by rewrite Ht, Hb, Hi, Htr.
  - intros x l [->|Hx]%elem_of_cons Hl.
    { unfold addedLayer in Hl. by rewrite Ht in Hl. }
    destruct (before a) as [b|] eqn:Hb; [|injection HX as <-; eauto].
    destruct (layerId a) as [i|] eqn:Hi; [|injection HX as <-; eauto].
    destruct (truthy (Some i)); injection HX as <-; [|eauto].
    destruct (Hupd (or_introl eq_refl) i eq_refl) as [Hkb _].
    fold (mapAt i (λ layer, spreadSnapshot layer b) ls).
    rewrite ids_mapAt; [eauto|]. intros l0. apply spreadSnapshot_keeps_id. auto.
  - intros x l [->|Hx]%elem_of_cons Hl.
    { unfold addedLayer in Hl. by rewrite Ht in Hl. }
    destruct (before a) as [b|] eqn:Hb; [|injection HX as <-; eauto].
    destruct (layerId a) as [i|] eqn:Hi; [|injection HX as <-; eauto].
    destruct (truthy (Some i)); injection HX as <-; [|eauto].
    destruct (Hupd (or_intror eq_refl) i eq_refl) as [Hkb _].
    fold (mapAt i (λ layer, spreadSnapshot layer b) ls).
    rewrite ids_mapAt; [eauto|]. intros l0. apply spreadSnapshot_keeps_id. auto.
  - intros x l [->|Hx]%elem_of_cons Hl.
    { unfold addedLayer in Hl. by rewrite Ht in Hl. }
    destruct (before a) as [[p|ls0]|] eqn:Hb; injection HX as <-; eauto.
    destruct (Hre eq_refl) as [Hcb _]. destruct (Hcb ls0 eq_refl) as (_ & _ & H2).
    eauto.
Qed.

Lemma Inv_redo ls h k a X :
  Inv ls h (Z.of_nat k - 1) → h !! k = Some a → redoLayers a ls = Some X →
  Inv X h (Z.of_nat k).
Proof.
  intros (Hnd & Hc & Hp & Hf & Hok) Hk HX.
  destruct (past_future_split h k a Hk) as (Hp1 & Hp2 & Hf1 & Hf2).
  rewrite Hp2 in Hp. rewrite Hf1 in Hf.
  pose proof (Hok k a Hk) as (Hadd & Hrm & Hupd & Hre).
  assert (Hfa : ∀ x l, x ∈ drop (S k) h → addedLayer x = Some l → id l ∉ ids ls).
  { intros x l Hx. apply Hf. by right. }
  assert (Hlt : (k < length h)%nat) by (by eapply lookup_lt_Some).
  apply Inv_at_cursor; [done|lia|..]; rewrite ?Hp1, ?Hf2.
  all: unfold redoLayers in HX; destruct (atype a) eqn:Ht.
  (* NoDup *)
  - destruct (after a) as [x|] eqn:Ha; [|by injection HX as <-].
    destruct (asLayer x) as [l|] eqn:Hl; [|done]. injection HX as <-.
    rewrite ids_snoc. apply NoDup_app. split_and!; [done| |apply NoDup_singleton].
    intros j Hj ->%list_elem_of_singleton. revert Hj.
    apply (Hf a l); [by left|]. unfold addedLayer. by rewrite Ht, Ha.
  - destruct (layerId a) as [i|]; [destruct (truthy (Some i))|];
      injection HX as <-; auto using NoDup_ids_removeId.
  - destruct (after a) as [x|] eqn:Ha; [|by injection HX as <-].
    destruct (layerId a) as [i|] eqn:Hi; [|by injection HX as <-].
    destruct (truthy (Some i)); injection HX as <-; [|done].
    destruct (Hupd (or_introl eq_refl) i eq_refl) as [_ Hka].
    fold (mapAt i (λ layer, spreadSnapshot layer x) ls).
    rewrite ids_mapAt; [done|]. intros l. apply spreadSnapshot_keeps_id. auto.
  - destruct (after a) as [x|] eqn:Ha; [|by injection HX as <-].
    destruct (layerId a) as [i|] eqn:Hi; [|by injection HX as <-].
    destruct (truthy (Some i)); injection HX as <-; [|done].
    destruct (Hupd (or_intror eq_refl) i eq_refl) as [_ Hka].
    fold (mapAt i (λ layer, spreadSnapshot layer x) ls).
    rewrite ids_mapAt; [done|]. intros l. apply spreadSnapshot_keeps_id. auto.
  - destruct (after a) as [[p|ls0]|] eqn:Ha; injection HX as <-; try done.
    destruct (Hre eq_refl) as [_ Hca]. by destruct (Hca ls0 eq_refl).
  (* applied part *)
  - intros r l' [Hr| ->%list_elem_of_singleton]%elem_of_app Hl'.
    2:{ unfold removedLayer in Hl'. by rewrite Ht in Hl'. }
    destruct (after a) as [x|] eqn:Ha; [|injection HX as <-; eauto].
    destruct (asLayer x) as [l|] eqn:Hl; [|done]. injection HX as <-.
    rewrite ids_snoc, not_elem_of_app. split; [eauto|].
    rewrite list_elem_of_singleton. intros Heq.
    assert (Hal : addedLayer a = Some l).
    { unfold addedLayer. by rewrite Ht, Ha. }
    destruct (Hadd l Hal) as (_ & _ & Hfr). apply (Hfr r Hr).
    rewrite <- Heq. by apply removedLayer_known.
  - intros r l' [Hr| ->%list_elem_of_singleton]%elem_of_app Hl'.
    + destruct (layerId a) as [i|]; [destruct (truthy (Some i))|];
        injection HX as <-; eauto.
      intros [? _]%ids_removeId. by eapply Hp.
    + destruct (Hrm l' Hl') as [Hlid _].
      unfold removedLayer in Hl'. rewrite Ht, Hlid in Hl'.
      destruct (before a) as [b|]; [|done].
      destruct (truthy (Some (id l'))) eqn:Htr; [|done].
      rewrite Hlid, Htr in HX. injection HX as <-. apply removeId_not_in.
  - intros r l [Hr| ->%list_elem_of_singleton]%elem_of_app Hl.
    2:{ unfold removedLayer in Hl. by rewrite Ht in Hl. }
    destruct (after a) as [x|] eqn:Ha; [|injection HX as <-; eauto].
    destruct (layerId a) as [i|] eqn:Hi; [|injection HX as <-; eauto].
    destruct (truthy (Some i)); injection HX as <-; [|eauto].
    destruct (Hupd (or_introl eq_refl) i eq_refl) as [_ Hka].
    fold (mapAt i (λ layer, spreadSnapshot layer x) ls).
    rewrite ids_mapAt; [eauto|]. intros l0. apply spreadSnapshot_keeps_id. auto.
  - intros r l [Hr| ->%list_elem_of_singleton]%elem_of_app Hl.
    2:{ unfold removedLayer in Hl. by rewrite Ht in Hl. }
    destruct (after a) as [x|] eqn:Ha; [|injection HX as <-; eauto].
    destruct (layerId a) as [i|] eqn:Hi; [|injection HX as <-; eauto].
    destruct (truthy (Some i)); injection HX as <-; [|eauto].
    destruct (Hupd (or_intror eq_refl) i eq_refl) as [_ Hka].
    fold (mapAt i (λ layer, spreadSnapshot layer x) ls).
    rewrite ids_mapAt; [eauto|]. intros l0. apply spreadSnapshot_keeps_id. auto.
  - intros r l [Hr| ->%list_elem_of_singleton]%elem_of_app Hl.
    2:{ unfold removedLayer in Hl. by rewrite Ht in Hl. }
    destruct (after a) as [[p|ls0]|] eqn:Ha; injection HX as <-; eauto.
    destruct (Hre eq_refl) as [_ Hca]. destruct (Hca ls0 eq_refl) as (_ & H1 & _).
    eauto.
  (* redo tail *)
  - intros x' l' Hx Hl'.
    destruct (after a) as [x|] eqn:Ha; [|injection HX as <-; eauto].
    destruct (asLayer x) as [l|] eqn:Hl; [|done]. injection HX as <-.
    rewrite ids_snoc, not_elem_of_app. split; [eauto|].
    rewrite list_elem_of_singleton. intros Heq.
    apply (later_add_unknown h k a x' l' Hok Hk Hx Hl').
    rewrite Heq. apply addedLayer_known. unfold addedLayer. by rewrite Ht, Ha.
  - intros x l Hx Hl.
    destruct (layerId a) as [i|]; [destruct (truthy (Some i))|];
      injection HX as <-; eauto.
    intros [? _]%ids_removeId. by eapply Hfa.
  - intros x' l Hx Hl.
    destruct (after a) as [x|] eqn:Ha; [|injection HX as <-; eauto].
    destruct (layerId a) as [i|] eqn:Hi; [|injection HX as <-; eauto].
    destruct (truthy (Some i)); injection HX as <-; [|eauto].
    destruct (Hupd (or_introl eq_refl) i eq_refl) as [_ Hka].
    fold (mapAt i (λ layer, spreadSnapshot layer x) ls).
    rewrite ids_mapAt; [eauto|]. intros l0. apply spreadSnapshot_keeps_id. auto.
  - intros x' l Hx Hl.
    destruct (after a) as [x|] eqn:Ha; [|injection HX as <-; eauto].
    destruct (layerId a) as [i|] eqn:Hi; [|injection HX as <-; eauto].
    destruct (truthy (Some i)); injection HX as <-; [|eauto].
    destruct (Hupd (or_intror eq_refl) i eq_refl) as [_ Hka].
    fold (mapAt i (λ layer, spreadSnapshot layer x) ls).
    rewrite ids_mapAt; [eauto|]. intros l0. apply spreadSnapshot_keeps_id. auto.
  - intros x' l Hx Hl.
    destruct (after a) as [[p|ls0]|] eqn:Ha; injection HX as <-; eauto.
    destruct (Hre eq_refl) as [_ Hca]. destruct (Hca ls0 eq_refl) as (_ & _ & H2).
    eauto.
Qed.

Lemma inv_undo s s' : inv s → stateOf (undo s) = Some s' → inv s'.
Proof.
  intros HI Hrun. unfold undo in Hrun.
  destruct (historyIndex s <? 0) eqn:E; [by injection Hrun as <-|].
  pose proof HI as (_ & Hc & _).
  destruct (at_index_in_range (history s) (historyIndex s)) as [a Hat]; [lia|].
  rewrite Hat in Hrun. apply at_index_Some in Hat as [Hge Hk].
  destruct (undoLayers a (layers s)) as [X|] eqn:HX; [|done].
  injection Hrun as <-. unfold inv in *. simpl.
  replace (historyIndex s) with (Z.of_nat (Z.to_nat (historyIndex s))) in HI |- * by lia.
  by apply (Inv_undo (layers s) _ _ a).
Qed.

Lemma inv_redo s s' : inv s → stateOf (redo s) = Some s' → inv s'.
Proof.
  intros HI Hrun. unfold redo in Hrun.
  destruct (_ <=? _) eqn:E; [by injection Hrun as <-|].
  pose proof HI as (_ & Hc & _).
  destruct (at_index_in_range (history s) (historyIndex s + 1)) as [a Hat]; [lia|].
  rewrite Hat in Hrun. apply at_index_Some in Hat as [Hge Hk].
  destruct (redoLayers a (layers s)) as [X|] eqn:HX; [|done].
  injection Hrun as <-. unfold inv in *. simpl.
  replace (historyIndex s + 1)
    with (Z.of_nat (Z.to_nat (historyIndex s + 1))) by lia.
  apply (Inv_redo (layers s) _ _ a); [|done|done].
  by replace (Z.of_nat (Z.to_nat (historyIndex s + 1)) - 1)
    with (historyIndex s) by lia.
Qed.

(** Every admissible call preserves the invariant. *)
Lemma inv_step op s s' :
  inv s → admissible op s → stateOf (run op s) = Some s' → inv s'.
Proof.
  intros HI Hadm Hrun. destruct op; cbn [run stateOf admissible] in Hrun, Hadm;
    try (injection Hrun as <-).
  - by apply (inv_addLayer newLayer now now' s).
  - by apply inv_removeLayer.
  - by apply inv_updateLayer.
  - by apply inv_moveLayer.
  - by apply inv_reorderLayers.
  - done.
  - by apply inv_clearLayers.
  - by apply (inv_undo s).
  - by apply (inv_redo s).
  - done.
  - done.
Qed.

Lemma inv_initialState initialLayers :
  NoDup (ids initialLayers) → inv (initialState initialLayers).
Proof.
  intros Hnd. unfold inv, Inv. simpl. split_and!; try done.
  - intros r l H. by apply elem_of_nil in H.
  - intros r l H. by apply elem_of_nil in H.
Qed.

Lemma inv_runAll ops : ∀ s s',
  inv s → disciplined ops s → runAll ops s = Some s' → inv s'.
Proof.
  induction ops as [|op ops IH]; intros s s' HI Hd Hrun; simpl in *.
  - by injection Hrun as <-.
  - destruct Hd as [Hadm Hd].
    destruct (stateOf (run op s)) as [s1|] eqn:E; [|done]. simpl in Hrun.
    apply (IH s1); [by apply (inv_step op s)|done|done].
Qed.

(** Two [addLayer] calls at [now] and [now'] assign the same id exactly when
    the clock readings are equal. *)
Lemma addLayer_ids_differ newLayer newLayer' now now' t t' s s' :
  (addLayer newLayer now t s).1 = (addLayer newLayer' now' t' s').1 ↔ now = now'.
Proof. simpl. split; [apply layerIdAt_inj|by intros ->]. Qed.

(** The calls must be made call by call for the ids to stay distinct. After
    an [addLayer], two [undo] calls made from one render both replay the
    action under the cursor of that render and leave [historyIndex] at -2.
    An [addLayer] at a fresh clock reading then cuts the log with
    [slice(0, -1)] and leaves its action at position 0 with [historyIndex]
    -1, so that [redo] finds it as the next action and appends its layer a
    second time. *)
Lemma undo_twice_from_one_render_duplicates_ids :
  let s1 := (addLayer house 1 1 (initialState [])).2 in
  ∃ p s2 s4,
    undoOn s1 s1 = Returned p ∧ undoOn s1 p = Returned s2 ∧
    layers s2 = [] ∧ historyIndex s2 = -2 ∧
    (layerIdAt 2 ∉ knownIds s2) ∧
    redo (addLayer house 2 2 s2).2 = Returned s4 ∧
    ids (layers s4) = [layerIdAt 2; layerIdAt 2] ∧
    ¬ NoDup (ids (layers s4)).
Proof.
  eexists _, _, _. split_and!; [reflexivity|reflexivity|done|done| |reflexivity|done|].
  - vm_compute. intros H. apply list_elem_of_In in H. simpl in H.
    intuition discriminate.
  - intros H. vm_compute in H. apply NoDup_cons in H as [H _]. apply H. by left.
Qed.

(** C8, amended. [addLayer] assigns the id [layer_<now>], so two calls at the
    same clock reading assign the same id, and the new id differs from every
    id of the collection exactly when no layer carries [layer_<now>]. In
    every state reached from an initial store with pairwise distinct ids by
    operations made call by call ([runAll]: each from the render that
    follows the previous call), in which each [addLayer] reads a clock value
    whose id occurs neither in the store nor in the history log, each
    [updateLayer] lists no id but the layer's own and each [reorderLayers]
    list has no repetition, the layer ids are pairwise distinct. *)
Theorem layer_ids_stay_distinct (initialLayers : list Layer) (ops : list Op)
    (s : State) (newLayer : LayerWithoutId) (now now' : Z) :
  NoDup (ids initialLayers) →
  disciplined ops (initialState initialLayers) →
  runAll ops (initialState initialLayers) = Some s →
  NoDup (ids (layers s)) ∧
  (addLayer newLayer now now' s).1 = layerIdAt now ∧
  (NoDup (ids (layers (addLayer newLayer now now' s).2)) ↔
   layerIdAt now ∉ ids (layers s)).
Proof.
  intros Hnd Hd Hrun.
  assert (HI : inv s).
  { apply (inv_runAll ops (initialState initialLayers)); try done.
    by apply inv_initialState. }
  destruct HI as (Hnd' & _). split_and!; [done|done|].
  rewrite addLayer_NoDup. tauto.
Qed.

Lemma layer_ids_stay_distinct_witness :
  NoDup (ids (layers sampleRun)).
Proof.
  refine (proj1 (layer_ids_stay_distinct [layerA; layerB] sampleOps sampleRun
                   house 0 0 _ _ _)).
  - compute_done.
  - compute_done.
  - vm_compute. reflexivity.
Defined.

(** * Further properties of the hook and of the components *)

(** ** The history log in states reached call by call *)

Lemma addHistoryAction_flags a now s :
  isUndoRedoInProgress (addHistoryAction a now s) = isUndoRedoInProgress s ∧
  isBatchingActions (addHistoryAction a now s) = isBatchingActions s.
Proof. unfold addHistoryAction. by destruct (_ || _). Qed.

Lemma Forall_lastN {A} (P : A → Prop) n (l : list A) :
  Forall P l → Forall P (lastN n l).
Proof. unfold lastN. apply Forall_drop. Qed.

Lemma wellFormed_record a now s :
  wellFormed s → typedAction (stamp a now) →
  wellFormed (addHistoryAction a now s).
Proof.
  intros (Hc & Hlen & Hu & Ht) Ha. unfold wellFormed.
  rewrite (proj1 (addHistoryAction_flags a now s)).
  destruct (addHistoryAction_history a now s Hc) as [[Hh Hi]|[Hh Hi]].
  - destruct Hc as [? ?]. unfold cursorOk. rewrite Hh, Hi. by split_and!.
  - assert (Hl : (1 ≤ length (history (addHistoryAction a now s)) ≤ 20)%nat).
    { rewrite Hh, lastN_length, length_app. simpl. lia. }
    split_and!; [unfold cursorOk; lia|lia|done|].
    rewrite Hh. apply Forall_lastN, Forall_app. split.
    + by apply Forall_take.
    + by constructor.
Qed.

Lemma typedAction_not_cast t i b x now :
  t ≠ Add → (t = Remove → i = None) →
  typedAction {| atype := t; layerId := i; before := b; after := x;
                 timestamp := now |}.
Proof.
  intros Ht Hr. split; simpl; [done|].
  intros Heq b' i' _ Hi. by rewrite (Hr Heq) in Hi.
Qed.

Lemma wellFormed_mutation op s s' :
  wellFormed s → isMutation op = true → run op s = Returned s' →
  wellFormed s'.
Proof.
  intros Hwf Hm Hrun. destruct op; try done; cbn [run] in Hrun;
    injection Hrun as <-.
  - apply (wellFormed_record _ _ (setLayers _ s)); [done|].
    split; simpl; [|done]. intros _ x [= <-]. by rewrite asLayer_asPartial.
  - unfold removeLayer. destruct (findById i (layers s)) as [l|]; [|done].
    assert (wellFormed (addHistoryAction
              {| u_type := Remove; u_layerId := Some i;
                 u_before := Some (SnapFields (asPartial l)); u_after := None |}
              now (setLayers (removeId i (layers s))
                     (handleLayerChange (removeId i (layers s)) s)))) as H.
    { apply wellFormed_record; [done|]. split; simpl; [done|].
      intros _ b j [= <-] _ _. by rewrite asLayer_asPartial. }
    by case_decide.
  - unfold updateLayer. destruct (findById i (layers s)) as [l|]; [|done].
    apply wellFormed_record; [done|]. by apply typedAction_not_cast.
  - unfold moveLayer. destruct (findById i (layers s)) as [l|]; [|done].
    apply wellFormed_record; [done|]. by apply typedAction_not_cast.
  - apply wellFormed_record; [done|]. by apply typedAction_not_cast.
  - apply wellFormed_record; [done|]. by apply typedAction_not_cast.
Qed.

Lemma undoLayers_typed a ls : typedAction a → is_Some (undoLayers a ls).
Proof.
  intros [_ Hr]. unfold undoLayers. destruct (atype a) eqn:Ht.
  - destruct (layerId a) as [i|]; [destruct (truthy (Some i))|]; eauto.
  - destruct (before a) as [b|] eqn:Hb; [|eauto].
    destruct (layerId a) as [i|] eqn:Hi; [|eauto].
    destruct (truthy (Some i)) eqn:Htr; [|eauto].
    destruct (Hr eq_refl b i eq_refl eq_refl Htr) as [l ->]. simpl. eauto.
  - destruct (before a), (layerId a) as [i|]; eauto.
    destruct (truthy (Some i)); eauto.
  - destruct (before a), (layerId a) as [i|]; eauto.
    destruct (truthy (Some i)); eauto.
  - destruct (before a) as [[p|l]|]; eauto.
Qed.

Lemma redoLayers_typed a ls : typedAction a → is_Some (redoLayers a ls).
Proof.
  intros [Ha _]. unfold redoLayers. destruct (atype a) eqn:Ht.
  - destruct (after a) as [x|] eqn:Hx; [|eauto].
    destruct (Ha eq_refl x eq_refl) as [l ->]. simpl. eauto.
  - destruct (layerId a) as [i|]; [destruct (truthy (Some i))|]; eauto.
  - destruct (after a), (layerId a) as [i|]; eauto.
    destruct (truthy (Some i)); eauto.
  - destruct (after a), (layerId a) as [i|]; eauto.
    destruct (truthy (Some i)); eauto.
  - destruct (after a) as [[p|l]|]; eauto.
Qed.

(** What [undo] does in a well-formed state. *)
Lemma undo_wellFormed s :
  wellFormed s →
  ∃ s', undo s = Returned s' ∧ wellFormed s' ∧
        history s' = history s ∧
        selectedLayerId s' = selectedLayerId s ∧
        isBatchingActions s' = isBatchingActions s ∧
        historyIndex s' =
          (if canUndo s then historyIndex s - 1 else historyIndex s) ∧
        (canUndo s = false → s' = s).
Proof.
  intros Hwf. pose proof Hwf as (Hc & Hlen & Hu & Ht).
  unfold undo, canUndo.
  destruct (historyIndex s <? 0) eqn:E.
  - exists s. destruct (0 <=? historyIndex s) eqn:E'; [lia|]. by split_and!.
  - destruct (0 <=? historyIndex s) eqn:E'; [|lia].
    destruct (at_index_in_range (history s) (historyIndex s)) as [a Hat];
      [unfold cursorOk in Hc; lia|].
    rewrite Hat. apply at_index_Some in Hat as [_ Hk].
    assert (Hta : typedAction a).
    { eapply Forall_forall; [exact Ht|]. by eapply list_elem_of_lookup_2. }
    destruct (undoLayers_typed a (layers s) Hta) as [X ->].
    eexists. split; [reflexivity|]. split_and!; try done.
    unfold wellFormed, cursorOk in *. simpl. split_and!; try done; lia.
Qed.

(** What [redo] does in a well-formed state. *)
Lemma redo_wellFormed s :
  wellFormed s →
  ∃ s', redo s = Returned s' ∧ wellFormed s' ∧
        history s' = history s ∧
        selectedLayerId s' = selectedLayerId s ∧
        isBatchingActions s' = isBatchingActions s ∧
        historyIndex s' =
          (if canRedo s then historyIndex s + 1 else historyIndex s) ∧
        (canRedo s = false → s' = s).
Proof.
  intros Hwf. pose proof Hwf as (Hc & Hlen & Hu & Ht).
  unfold redo, canRedo.
  destruct (_ <=? historyIndex s) eqn:E.
  - exists s. destruct (historyIndex s <? _) eqn:E'; [lia|]. by split_and!.
  - destruct (historyIndex s <? _) eqn:E'; [|lia].
    destruct (at_index_in_range (history s) (historyIndex s + 1)) as [a Hat];
      [unfold cursorOk in Hc; lia|].
    rewrite Hat. apply at_index_Some in Hat as [_ Hk].
    assert (Hta : typedAction a).
    { eapply Forall_forall; [exact Ht|]. by eapply list_elem_of_lookup_2. }
    destruct (redoLayers_typed a (layers s) Hta) as [X ->].
    eexists. split; [reflexivity|]. split_and!; try done.
    unfold wellFormed, cursorOk in *. simpl. split_and!; try done; lia.
Qed.

Lemma run_wellFormed op s :
  wellFormed s → ∃ s', run op s = Returned s' ∧ wellFormed s'.
Proof.
  intros Hwf. destruct (isMutation op) eqn:Hm.
  - assert (∃ s', run op s = Returned s') as [s' Hs'].
    { destruct op; try done; simpl; eauto. }
    exists s'. split; [done|]. by apply (wellFormed_mutation op s).
  - destruct op; try done; cbn [run].
    + eexists. split; [reflexivity|done].
    + destruct (undo_wellFormed s Hwf) as (s' & ? & ? & _). eauto.
    + destruct (redo_wellFormed s Hwf) as (s' & ? & ? & _). eauto.
    + eexists. split; [reflexivity|done].
    + eexists. split; [reflexivity|done].
Qed.

Lemma callByCall_wellFormed s : reachedCallByCall s → wellFormed s.
Proof.
  induction 1 as [ls|op s s' _ IH Hrun].
  - unfold wellFormed, cursorOk. simpl. split_and!; try done; lia.
  - destruct (run_wellFormed op s IH) as (s1 & Hs1 & Hwf).
    rewrite Hs1 in Hrun. simpl in Hrun. by injection Hrun as <-.
Qed.

Lemma runAll_callByCall ops : ∀ s s',
  reachedCallByCall s → runAll ops s = Some s' → reachedCallByCall s'.
Proof.
  induction ops as [|op ops IH]; intros s s' Hr Hrun; simpl in Hrun.
  - by injection Hrun as <-.
  - destruct (stateOf (run op s)) as [s1|] eqn:E; [|done].
    apply (IH s1); [|done]. by apply (callByCall_step op s).
Qed.

Lemma sampleRun_callByCall : reachedCallByCall sampleRun.
Proof.
  apply (runAll_callByCall sampleOps (initialState [layerA; layerB]));
    [apply callByCall_init|]. by vm_compute.
Qed.

Lemma sampleUndone_callByCall : reachedCallByCall sampleUndone.
Proof.
  apply (runAll_callByCall (sampleOps ++ [OpUndo]) (initialState [layerA; layerB]));
    [apply callByCall_init|]. by vm_compute.
Qed.

Lemma sampleRun_wellFormed : wellFormed sampleRun.
Proof. apply callByCall_wellFormed, sampleRun_callByCall. Qed.

Lemma sampleUndone_wellFormed : wellFormed sampleUndone.
Proof. apply callByCall_wellFormed, sampleUndone_callByCall. Qed.

(** Two [addLayer] calls made from one render of the empty store: both
    [setHistory] updaters cut the log at the [historyIndex] of that render,
    so the log holds one action, and both [setHistoryIndex] updaters count
    on, so [historyIndex] is 1. The cursor is outside the log, the state is
    not reached call by call, and [undo] throws in it ([history[1]] is
    [undefined]) although [canUndo] is true. *)
Lemma two_calls_from_one_render_break_cursor :
  let s := addLayersOn (initialState []) house [1; 2] in
  length (history s) = 1%nat ∧ historyIndex s = 1 ∧ canUndo s = true ∧
  ¬ cursorOk s ∧ ¬ reachedCallByCall s ∧
  ∃ s', undo s = Threw s' ∧ canRedo s' = false.
Proof.
  intros s.
  assert (Hc : ¬ cursorOk s) by (intros [_ H]; vm_compute in H; discriminate).
  split_and!; [done|done|done|done| |].
  - intros Hr. by apply callByCall_wellFormed in Hr as [? _].
  - eexists. by split.
Qed.

(** After an [addLayer], two [undo] calls made from one render leave
    [historyIndex] at -2: [canRedo] is true, and [redo] throws
    ([history[-1]] is [undefined]) and leaves [canUndo] false. *)
Lemma redo_throws_after_two_undos_from_one_render :
  let s1 := (addLayer house 1 1 (initialState [])).2 in
  ∃ p s2 s3,
    undoOn s1 s1 = Returned p ∧ undoOn s1 p = Returned s2 ∧
    historyIndex s2 = -2 ∧ canRedo s2 = true ∧
    redo s2 = Threw s3 ∧ canUndo s3 = false.
Proof. eexists _, _, _. by split_and!. Qed.

(** X1. In every state reached call by call (each call made from the render
    that follows the previous one) the cursor is [-1] or a position of the log,
    the log holds at most [MAX_HISTORY_SIZE] actions, [isUndoRedoInProgress]
    is down, and the ['add'] and ['remove'] actions of the log hold the
    layers that a replay appends. *)
Theorem history_bounds_call_by_call (s : State) :
  reachedCallByCall s →
  -1 ≤ historyIndex s < Z.of_nat (length (history s)) ∧
  Z.of_nat (length (history s)) ≤ MAX_HISTORY_SIZE ∧
  isUndoRedoInProgress s = false ∧
  Forall typedAction (history s).
Proof.
  intros (Hc & Hlen & Hu & Ht)%callByCall_wellFormed.
  unfold MAX_HISTORY_SIZE. split_and!; [apply Hc|apply Hc|lia|done|done].
Qed.

Lemma history_bounds_call_by_call_witness :
  -1 ≤ historyIndex sampleRun < Z.of_nat (length (history sampleRun)) ∧
  Z.of_nat (length (history sampleRun)) ≤ MAX_HISTORY_SIZE ∧
  isUndoRedoInProgress sampleRun = false ∧
  Forall typedAction (history sampleRun).
Proof. exact (history_bounds_call_by_call sampleRun sampleRun_callByCall). Defined.

(** X2. In a rendered state that is well formed (the cursor is [-1] or a
    position of the log, the log holds at most 20 actions,
    [isUndoRedoInProgress] is down, and the ['add'] and ['remove'] actions
    hold the layers that a replay appends) every public call returns
    normally: [undo] and [redo] find an action under the cursor. The state
    it leaves is well formed again. *)
Theorem wellFormed_calls_return (op : Op) (s : State) :
  wellFormed s → ∃ s', run op s = Returned s' ∧ wellFormed s'.
Proof. apply run_wellFormed. Qed.

Lemma wellFormed_calls_return_witness :
  ∃ s', run OpUndo sampleRun = Returned s' ∧ wellFormed s'.
Proof. exact (wellFormed_calls_return OpUndo sampleRun sampleRun_wellFormed). Defined.

(** X3. [undo] in a well-formed rendered state: the log, the selection and the
    batching flag are untouched; with [canUndo] false nothing changes at
    all; with [canUndo] true the cursor moves back by one, [canRedo] becomes
    true and a [redo] from the next render puts the cursor back. *)
Theorem undo_moves_cursor_back (s : State) :
  wellFormed s →
  ∃ s', run OpUndo s = Returned s' ∧
        history s' = history s ∧
        selectedLayerId s' = selectedLayerId s ∧
        isBatchingActions s' = isBatchingActions s ∧
        (canUndo s = false → s' = s) ∧
        (canUndo s = true →
           historyIndex s' = historyIndex s - 1 ∧ canRedo s' = true ∧
           ∃ s'', run OpRedo s' = Returned s'' ∧
                  historyIndex s'' = historyIndex s).
Proof.
  intros Hwf.
  destruct (undo_wellFormed s Hwf) as (s' & Hrun & Hwf' & Hh & Hsel & Hb & Hi & Hno).
  exists s'. split_and!; try done.
  intros Hcan. rewrite Hcan in Hi.
  assert (Hcr : canRedo s' = true).
  { unfold canRedo, canUndo in *. rewrite Hh, Hi.
    destruct Hwf as ([? ?] & _). apply Z.ltb_lt. lia. }
  split_and!; try done.
  destruct (redo_wellFormed s' Hwf') as (s'' & Hrun' & _ & _ & _ & _ & Hi' & _).
  exists s''. split; [done|]. rewrite Hcr in Hi'. lia.
Qed.

Lemma undo_moves_cursor_back_witness :
  ∃ s', run OpUndo sampleRun = Returned s' ∧
        history s' = history sampleRun ∧
        selectedLayerId s' = selectedLayerId sampleRun ∧
        isBatchingActions s' = isBatchingActions sampleRun ∧
        (canUndo sampleRun = false → s' = sampleRun) ∧
        (canUndo sampleRun = true →
           historyIndex s' = historyIndex sampleRun - 1 ∧ canRedo s' = true ∧
           ∃ s'', run OpRedo s' = Returned s'' ∧
                  historyIndex s'' = historyIndex sampleRun).
Proof. exact (undo_moves_cursor_back sampleRun sampleRun_wellFormed). Defined.

(** X4. [redo] in a well-formed rendered state: the log, the selection and the
    batching flag are untouched; with [canRedo] false nothing changes at
    all; with [canRedo] true the cursor advances by one, [canUndo] becomes
    true and an [undo] from the next render puts the cursor back. *)
Theorem redo_moves_cursor_forward (s : State) :
  wellFormed s →
  ∃ s', run OpRedo s = Returned s' ∧
        history s' = history s ∧
        selectedLayerId s' = selectedLayerId s ∧
        isBatchingActions s' = isBatchingActions s ∧
        (canRedo s = false → s' = s) ∧
        (canRedo s = true →
           historyIndex s' = historyIndex s + 1 ∧ canUndo s' = true ∧
           ∃ s'', run OpUndo s' = Returned s'' ∧
                  historyIndex s'' = historyIndex s).
Proof.
  intros Hwf.
  destruct (redo_wellFormed s Hwf) as (s' & Hrun & Hwf' & Hh & Hsel & Hb & Hi & Hno).
  exists s'. split_and!; try done.
  intros Hcan. rewrite Hcan in Hi.
  assert (Hcu : canUndo s' = true).
  { unfold canUndo. rewrite Hi. destruct Hwf as ([? ?] & _).
    apply Z.leb_le. lia. }
  split_and!; try done.
  destruct (undo_wellFormed s' Hwf') as (s'' & Hrun' & _ & _ & _ & _ & Hi' & _).
  exists s''. split; [done|]. rewrite Hcu in Hi'. lia.
Qed.

Lemma redo_moves_cursor_forward_witness :
  ∃ s', run OpRedo sampleUndone = Returned s' ∧
        history s' = history sampleUndone ∧
        selectedLayerId s' = selectedLayerId sampleUndone ∧
        isBatchingActions s' = isBatchingActions sampleUndone ∧
        (canRedo sampleUndone = false → s' = sampleUndone) ∧
        (canRedo sampleUndone = true →
           historyIndex s' = historyIndex sampleUndone + 1 ∧ canUndo s' = true ∧
           ∃ s'', run OpUndo s' = Returned s'' ∧
                  historyIndex s'' = historyIndex sampleUndone).
Proof. exact (redo_moves_cursor_forward sampleUndone sampleUndone_wellFormed). Defined.

(** ** Recording and batching *)

Lemma addHistoryAction_batching a now s :
  isBatchingActions s = true → addHistoryAction a now s = s.
Proof. intros H. apply addHistoryAction_suppressed. by right. Qed.

(** X5. While a batch is open ([startBatch] without [endBatch]) a mutator
    changes the collection as usual and leaves the log and the cursor alone,
    and [endBatch] adds no action for the batch either. *)
Theorem batched_mutations_are_not_recorded (op : Op) (s : State) :
  isBatchingActions s = true → isMutation op = true →
  ∃ s', run op s = Returned s' ∧
        history s' = history s ∧ historyIndex s' = historyIndex s ∧
        isBatchingActions s' = true ∧
        history (endBatch s') = history s ∧
        historyIndex (endBatch s') = historyIndex s ∧
        canUndo (endBatch s') = canUndo s ∧ canRedo (endBatch s') = canRedo s.
Proof.
  intros Hb Hm.
  assert (∃ s', run op s = Returned s' ∧ history s' = history s ∧
                historyIndex s' = historyIndex s ∧ isBatchingActions s' = true)
    as (s' & Hrun & Hh & Hi & Hb').
  { destruct op; try done; cbn [run]; eexists; (split; [reflexivity|]).
    - unfold addLayer. cbn [snd]. by rewrite addHistoryAction_batching.
    - unfold removeLayer. destruct (findById i (layers s)); [|done].
      rewrite addHistoryAction_batching by done. by case_decide.
    - unfold updateLayer. destruct (findById i (layers s)); [|done].
      by rewrite addHistoryAction_batching.
    - unfold moveLayer. destruct (findById i (layers s)); [|done].
      by rewrite addHistoryAction_batching.
    - unfold reorderLayers. by rewrite addHistoryAction_batching.
    - unfold clearLayers. by rewrite addHistoryAction_batching. }
  exists s'. unfold canUndo, canRedo. simpl. rewrite Hh, Hi. by split_and!.
Qed.

Lemma batched_mutations_are_not_recorded_witness :
  ∃ s', run (OpClearLayers 9) (startBatch sampleRun) = Returned s' ∧
        history s' = history (startBatch sampleRun) ∧
        historyIndex s' = historyIndex (startBatch sampleRun) ∧
        isBatchingActions s' = true ∧
        history (endBatch s') = history (startBatch sampleRun) ∧
        historyIndex (endBatch s') = historyIndex (startBatch sampleRun) ∧
        canUndo (endBatch s') = canUndo (startBatch sampleRun) ∧
        canRedo (endBatch s') = canRedo (startBatch sampleRun).
Proof.
  exact (batched_mutations_are_not_recorded (OpClearLayers 9)
           (startBatch sampleRun) eq_refl eq_refl).
Defined.

Lemma recorded_fields a now s0 :
  isUndoRedoInProgress s0 = false → isBatchingActions s0 = false →
  cursorOk s0 →
  let s1 := addHistoryAction a now s0 in
  history s1 = lastN 20 (take (Z.to_nat (historyIndex s0 + 1)) (history s0)
                         ++ [stamp a now]) ∧
  historyIndex s1 = Z.of_nat (length (history s1)) - 1 ∧
  canUndo s1 = true ∧ canRedo s1 = false.
Proof.
  intros Hu Hb Hc s1.
  destruct (addHistoryAction_cursor a now s0 Hu Hb Hc) as [Hi _].
  fold s1 in Hi.
  assert (Hh : history s1 = lastN 20 (take (Z.to_nat (historyIndex s0 + 1))
                                        (history s0) ++ [stamp a now])).
  { unfold s1. rewrite addHistoryAction_recorded by (done || apply Hc). done. }
  assert (Hl : (1 ≤ length (history s1))%nat).
  { rewrite Hh, lastN_length, length_app. simpl. lia. }
  split_and!; [done|done| |].
  - unfold canUndo. apply Z.leb_le. lia.
  - unfold canRedo. apply Z.ltb_ge. lia.
Qed.

(** X6. In a rendered state whose cursor is [-1] or a position of the log,
    outside a batch and outside a replay, a mutator that reaches
    [addHistoryAction] cuts the redo tail and appends its action, keeping
    the last [MAX_HISTORY_SIZE] entries: afterwards [historyIndex] is the
    last position, [canUndo] is true and [canRedo] is false. [clearLayers]
    records its action under the type ['remove']. *)
Theorem recorded_mutation_cuts_redo_tail (op : Op) (s : State) :
  cursorOk s → isUndoRedoInProgress s = false →
  isBatchingActions s = false → records op s = true →
  ∃ s' a, run op s = Returned s' ∧
          history s' =
            lastN 20 (take (Z.to_nat (historyIndex s + 1)) (history s) ++ [a]) ∧
          atype a = recordedType op ∧ layerId a = recordedId op ∧
          historyIndex s' = Z.of_nat (length (history s')) - 1 ∧
          canUndo s' = true ∧ canRedo s' = false.
Proof.
  intros Hc Hu Hb Hrec.
  destruct op; try done; cbn [run records recordedType recordedId] in *.
  - destruct (recorded_fields
                {| u_type := Add; u_layerId := Some (layerIdAt now); u_before := None;
                   u_after := Some (SnapFields (asPartial (withId newLayer (layerIdAt now)))) |}
                now' (setLayers (layers s ++ [withId newLayer (layerIdAt now)]) s))
      as (Hh & Hi & Hcu & Hcr); try done.
    eexists _, _. split; [reflexivity|]. split_and!; try done.
  - apply bool_decide_eq_true in Hrec. apply findById_is_Some in Hrec as [l Hf].
    unfold removeLayer. rewrite Hf.
    destruct (recorded_fields
                {| u_type := Remove; u_layerId := Some i;
                   u_before := Some (SnapFields (asPartial l)); u_after := None |}
                now (setLayers (removeId i (layers s))
                       (handleLayerChange (removeId i (layers s)) s)))
      as (Hh & Hi & Hcu & Hcr); try done.
    eexists _, _. split; [reflexivity|].
    split_and!; try (by case_decide); done.
  - apply bool_decide_eq_true in Hrec. apply findById_is_Some in Hrec as [l Hf].
    unfold updateLayer. rewrite Hf.
    eexists _, _. split; [reflexivity|].
    match goal with |- context [addHistoryAction ?a ?n ?s0] =>
      destruct (recorded_fields a n s0) as (Hh & Hi & Hcu & Hcr); try done end.
  - apply bool_decide_eq_true in Hrec. apply findById_is_Some in Hrec as [l Hf].
    unfold moveLayer. rewrite Hf.
    eexists _, _. split; [reflexivity|].
    match goal with |- context [addHistoryAction ?a ?n ?s0] =>
      destruct (recorded_fields a n s0) as (Hh & Hi & Hcu & Hcr); try done end.
  - unfold reorderLayers.
    eexists _, _. split; [reflexivity|].
    match goal with |- context [addHistoryAction ?a ?n ?s0] =>
      destruct (recorded_fields a n s0) as (Hh & Hi & Hcu & Hcr); try done end.
  - unfold clearLayers.
    eexists _, _. split; [reflexivity|].
    match goal with |- context [addHistoryAction ?a ?n ?s0] =>
      destruct (recorded_fields a n s0) as (Hh & Hi & Hcu & Hcr); try done end.
Qed.

Lemma recorded_mutation_cuts_redo_tail_witness :
  ∃ s' a, run (OpClearLayers 9) sampleUndone = Returned s' ∧
          history s' =
            lastN 20 (take (Z.to_nat (historyIndex sampleUndone + 1))
                        (history sampleUndone) ++ [a]) ∧
          atype a = recordedType (OpClearLayers 9) ∧
          layerId a = recordedId (OpClearLayers 9) ∧
          historyIndex s' = Z.of_nat (length (history s')) - 1 ∧
          canUndo s' = true ∧ canRedo s' = false.
Proof.
  refine (recorded_mutation_cuts_redo_tail (OpClearLayers 9) sampleUndone
            _ eq_refl eq_refl eq_refl).
  exact (proj1 sampleUndone_wellFormed).
Defined.

(** ** The mutators on the collection *)

Lemma removeLayer_layers i now s :
  layers (removeLayer i now s) = removeId i (layers s).
Proof.
  unfold removeLayer. destruct (findById i (layers s)) as [l|] eqn:Hf.
  - case_decide; simpl; by rewrite (proj1 (addHistoryAction_layers _ _ _)).
  - apply findById_None in Hf. by rewrite removeId_absent.
Qed.

Lemma removeLayer_selection i now s :
  selectedLayerId (removeLayer i now s) =
    if decide (selectedLayerId s = Some i ∧ i ∈ ids (layers s)) then None
    else selectedLayerId s.
Proof.
  unfold removeLayer. destruct (findById i (layers s)) as [l|] eqn:Hf.
  - assert (i ∈ ids (layers s)).
    { apply findById_Some in Hf as [Hin <-]. unfold ids.
      by apply list_elem_of_fmap_2. }
    destruct (decide (selectedLayerId s = Some i)) as [He|Hne].
    + by rewrite decide_True.
    + rewrite decide_False by tauto. simpl.
      by rewrite (proj2 (addHistoryAction_layers _ _ _)).
  - apply findById_None in Hf. by rewrite decide_False by tauto.
Qed.

(** X7. [removeLayer(id)] removes every layer that carries the id and nothing
    else, keeps the order of the others, and resets the selection exactly
    when it named a layer that was removed; the selected layer, if any, is
    never one with the removed id. *)
Theorem removeLayer_removes_every_match (i : string) (now : Z) (s : State) :
  let s' := removeLayer i now s in
  (i ∉ ids (layers s')) ∧
  (layers s' `sublist_of` layers s) ∧
  (∀ l, l ∈ layers s' ↔ l ∈ layers s ∧ id l ≠ i) ∧
  selectedLayerId s' =
    (if decide (selectedLayerId s = Some i ∧ i ∈ ids (layers s)) then None
     else selectedLayerId s) ∧
  (∀ l, selectedLayer s' = Some l → id l ≠ i).
Proof.
  intros s'. unfold s'. rewrite removeLayer_layers.
  assert (Hmem : ∀ l, l ∈ removeId i (layers s) ↔ l ∈ layers s ∧ id l ≠ i).
  { intros l. unfold removeId. rewrite list_elem_of_filter. tauto. }
  split_and!.
  - apply removeId_not_in.
  - apply sublist_filter.
  - done.
  - apply removeLayer_selection.
  - intros l Hl. unfold selectedLayer in Hl.
    destruct (selectedLayerId _) as [j|]; [|done].
    destruct (truthy (Some j)); [|done].
    apply findById_Some in Hl as [Hin _]. rewrite removeLayer_layers in Hin.
    by apply Hmem in Hin as [_ ?].
Qed.

Lemma moveLayer_layers i pos now s :
  layers (moveLayer i pos now s) =
    mapAt i (λ layer, withPosition layer pos) (layers s).
Proof.
  unfold moveLayer. destruct (findById i (layers s)) as [l|] eqn:Hf.
  - by rewrite (proj1 (addHistoryAction_layers _ _ _)).
  - apply findById_None in Hf. unfold mapAt. symmetry. apply fmap_fixed.
    intros l Hl. case_decide as Hd; [|done]. destruct Hf. rewrite <- Hd.
    unfold ids. by apply list_elem_of_fmap_2.
Qed.

Lemma updateLayer_layers_mapAt i u now s :
  layers (updateLayer i u now s) = mapAt i (λ layer, spread layer u) (layers s).
Proof.
  unfold updateLayer. destruct (findById i (layers s)) as [l|] eqn:Hf.
  - by rewrite (proj1 (addHistoryAction_layers _ _ _)).
  - apply findById_None in Hf. unfold mapAt. symmetry. apply fmap_fixed.
    intros l Hl. case_decide as Hd; [|done]. destruct Hf. rewrite <- Hd.
    unfold ids. by apply list_elem_of_fmap_2.
Qed.

(** X8. [moveLayer(id, position)] changes the collection as
    [updateLayer(id, { position })] does, whether the id is known or not:
    same length, same ids in the same order, and in every layer all the
    properties but [position] as before. *)
Theorem moveLayer_is_position_update (i : string) (pos : Position) (now : Z)
    (s : State) :
  let s' := moveLayer i pos now s in
  layers s' = layers (updateLayer i (positionOnly pos) now s) ∧
  ids (layers s') = ids (layers s) ∧
  Forall2 (λ l l', withPosition l' (position l) = l ∧
                   (position l' = pos ∨ l' = l))
    (layers s) (layers s').
Proof.
  intros s'. unfold s'. rewrite moveLayer_layers, updateLayer_layers_mapAt.
  split_and!.
  - done.
  - by apply ids_mapAt.
  - unfold mapAt. apply Forall2_fmap_r, Forall_Forall2_diag, Forall_forall.
    intros l _. unfold compose. case_decide.
    + split; [apply withPosition_restore|by left].
    + split; [by destruct l|by right].
Qed.

(** *** [reorderLayers] and its replay *)

Lemma omap_Some {A} (l : list A) : omap (λ o : option A, o) (Some <$> l) = l.
Proof. induction l as [|a l IH]; [done|]. simpl. f_equal. exact IH. Qed.

(** With distinct ids, the list of all ids in store order changes no
    position: the result is the collection renumbered. *)
Lemma reordered_all_ids ls :
  NoDup (ids ls) → reordered (layerMapOf ls) (ids ls) = renumbered ls.
Proof.
  intros Hnd. unfold reordered.
  transitivity (omap (λ o : option Layer, o) (Some <$> renumbered ls));
    [|apply omap_Some].
  f_equal. unfold renumbered. apply list_eq. intros k.
  rewrite list_lookup_fmap, !list_lookup_imap. unfold ids.
  rewrite list_lookup_fmap.
  destruct (ls !! k) as [l|] eqn:Hk; [|done]. simpl.
  rewrite layerMapOf_NoDup; [done|done|]. by eapply list_elem_of_lookup_2.
Qed.

Lemma renumbering_renumbered ls : renumbering ls (renumbered ls).
Proof.
  unfold renumbering, renumbered. split; [by rewrite length_imap|].
  intros k l Hk. exists (withZIndex l (Z.of_nat k)).
  split; [by rewrite list_lookup_imap, Hk|apply reindexed_withZIndex].
Qed.

(** X9. [reorderLayers], [undo], [redo]: the undo puts back the collection as it
    was; the redo installs the [after] snapshot, which is the collection
    before the call with [zIndex] = position in the store, whatever
    [orderedIds] was. It is the collection that the call had produced when
    [orderedIds] lists the ids of the store in store order. *)
Theorem reorderLayers_undo_redo (orderedIds : list string) (now : Z) (s : State) :
  recording s →
  ∃ s2 s3,
    run OpUndo (reorderLayers orderedIds now s) = Returned s2 ∧
    layers s2 = layers s ∧
    run OpRedo s2 = Returned s3 ∧
    renumbering (layers s) (layers s3) ∧
    (NoDup (ids (layers s)) → orderedIds = ids (layers s) →
     layers s3 = layers (reorderLayers orderedIds now s)).
Proof.
  intros (Hu & Hb & Hc). unfold reorderLayers.
  set (upd := reordered _ _). set (a := Build_UntimedAction _ _ _ _).
  destruct (recorded_at a now (setLayers upd (handleLayerChange upd s)))
    as (Hi & Hat & Hl); try done.
  destruct (undo_redo_at (stamp a now)
              (addHistoryAction a now (setLayers upd (handleLayerChange upd s)))
              (layers s) (renumbered (layers s)))
    as (s2 & s3 & H1 & H2 & H3 & H4); try done.
  exists s2, s3. split_and!; try done.
  - rewrite H4. apply renumbering_renumbered.
  - intros Hnd ->. rewrite H4, Hl. simpl. unfold upd.
    by rewrite reordered_all_ids.
Qed.

Lemma reorderLayers_undo_redo_witness :
  ∃ s2 s3,
    run OpUndo (reorderLayers ["b"%string; "a"%string] 5
                  (initialState [layerA; layerB])) = Returned s2 ∧
    layers s2 = layers (initialState [layerA; layerB]) ∧
    run OpRedo s2 = Returned s3 ∧
    renumbering (layers (initialState [layerA; layerB])) (layers s3) ∧
    (NoDup (ids (layers (initialState [layerA; layerB]))) →
     ["b"%string; "a"%string] = ids (layers (initialState [layerA; layerB])) →
     layers s3 = layers (reorderLayers ["b"%string; "a"%string] 5
                           (initialState [layerA; layerB]))).
Proof.
  refine (reorderLayers_undo_redo ["b"%string; "a"%string] 5
            (initialState [layerA; layerB]) _).
  unfold recording, cursorOk. simpl. split_and!; [reflexivity|reflexivity|lia|lia].
Defined.

(** After [reorderLayers(['b','a'])] on the store [a, b], an [undo] and a
    [redo] give [a, b] with [zIndex] 0 and 1, not the [b, a] that the call
    had produced. *)
Lemma reorderLayers_redo_differs :
  ∃ s2 s3,
    run OpUndo (reorderLayers ["b"%string; "a"%string] 5
                  (initialState [layerA; layerB])) = Returned s2 ∧
    run OpRedo s2 = Returned s3 ∧
    ids (layers s3) = ["a"%string; "b"%string] ∧
    ids (layers (reorderLayers ["b"%string; "a"%string] 5
                   (initialState [layerA; layerB]))) = ["b"%string; "a"%string].
Proof. eexists _, _. by split_and!. Qed.

(** ** The layer controls of [CityBuilder] *)

Lemma findById_mapAt i f ls :
  (∀ l, id l = i → id (f l) = i) →
  findById i (mapAt i f ls) = f <$> findById i ls.
Proof.
  intros Hf. induction ls as [|l ls IH]; [done|].
  unfold mapAt in *. rewrite fmap_cons, !findById_cons.
  destruct (decide (id l = i)) as [Hi|Hi].
  - by rewrite decide_True by by apply Hf.
  - by rewrite decide_False.
Qed.

(** Two updates in a row of the layer with id [i], the second of which
    gives back what the first has changed. *)
Lemma updateLayer_back i u u' now now' s l :
  NoDup (ids (layers s)) → findById i (layers s) = Some l →
  id (spread l u) = i → spread (spread l u) u' = l →
  layers (updateLayer i u' now' (updateLayer i u now s)) = layers s.
Proof.
  intros Hnd Hf Hid Hback. rewrite !updateLayer_layers_mapAt.
  rewrite (mapAt_mapAt i _ _ _ l) by done. rewrite Hback.
  by apply mapAt_const_found.
Qed.

(** X10. [toggleLayerVisibility(id)] on a layer of a store with distinct ids
    inverts the [visible] flag of that layer and nothing else, and a second
    toggle gives the collection back. *)
Theorem toggleLayerVisibility_twice (i : string) (now now' : Z) (s : State)
    (l : Layer) :
  NoDup (ids (layers s)) → findById i (layers s) = Some l →
  let s1 := toggleLayerVisibility i now s in
  findById i (layers s1) = Some (spread l (visibleOnly (negb (visible l)))) ∧
  Forall2 (λ a b, b = if decide (id a = i)
                      then spread a (visibleOnly (negb (visible a))) else a)
    (layers s) (layers s1) ∧
  layers (toggleLayerVisibility i now' s1) = layers s.
Proof.
  intros Hnd Hf s1.
  pose proof (findById_Some _ _ _ Hf) as [_ Hid].
  assert (H1 : layers s1 =
    mapAt i (λ layer, spread layer (visibleOnly (negb (visible l)))) (layers s)).
  { unfold s1, toggleLayerVisibility. rewrite Hf.
    apply updateLayer_layers_mapAt. }
  assert (Hf1 : findById i (layers s1) =
                Some (spread l (visibleOnly (negb (visible l))))).
  { rewrite H1, findById_mapAt by done. by rewrite Hf. }
  split_and!.
  - done.
  - rewrite H1. unfold mapAt. apply Forall2_fmap_r, Forall_Forall2_diag,
      Forall_forall. intros a Ha. unfold compose. case_decide as Hd; [|done].
    by rewrite (findById_unique i (layers s) l a).
  - unfold toggleLayerVisibility at 1. rewrite Hf1.
    unfold s1, toggleLayerVisibility. rewrite Hf.
    apply (updateLayer_back i _ _ now now' s l); try done.
    destruct l. simpl. by rewrite negb_involutive.
Qed.

Lemma toggleLayerVisibility_twice_witness :
  findById "a"%string
    (layers (toggleLayerVisibility "a"%string 1 (initialState [layerA; layerB])))
    = Some (spread layerA (visibleOnly (negb (visible layerA)))) ∧
  Forall2 (λ a b, b = if decide (id a = "a"%string)
                      then spread a (visibleOnly (negb (visible a))) else a)
    (layers (initialState [layerA; layerB]))
    (layers (toggleLayerVisibility "a"%string 1 (initialState [layerA; layerB]))) ∧
  layers (toggleLayerVisibility "a"%string 2
            (toggleLayerVisibility "a"%string 1 (initialState [layerA; layerB])))
    = layers (initialState [layerA; layerB]).
Proof.
  refine (toggleLayerVisibility_twice "a"%string 1 2
            (initialState [layerA; layerB]) layerA _ _).
  - compute_done.
  - reflexivity.
Defined.

(** X11. [toggleLayerLock(id)] on a layer of a store with distinct ids inverts
    the [locked] flag of that layer and nothing else, and a second toggle
    gives the collection back. *)
Theorem toggleLayerLock_twice (i : string) (now now' : Z) (s : State)
    (l : Layer) :
  NoDup (ids (layers s)) → findById i (layers s) = Some l →
  let s1 := toggleLayerLock i now s in
  findById i (layers s1) = Some (spread l (lockedOnly (negb (locked l)))) ∧
  Forall2 (λ a b, b = if decide (id a = i)
                      then spread a (lockedOnly (negb (locked a))) else a)
    (layers s) (layers s1) ∧
  layers (toggleLayerLock i now' s1) = layers s.
Proof.
  intros Hnd Hf s1.
  pose proof (findById_Some _ _ _ Hf) as [_ Hid].
  assert (H1 : layers s1 =
    mapAt i (λ layer, spread layer (lockedOnly (negb (locked l)))) (layers s)).
  { unfold s1, toggleLayerLock. rewrite Hf. apply updateLayer_layers_mapAt. }
  assert (Hf1 : findById i (layers s1) =
                Some (spread l (lockedOnly (negb (locked l))))).
  { rewrite H1, findById_mapAt by done. by rewrite Hf. }
  split_and!.
  - done.
  - rewrite H1. unfold mapAt. apply Forall2_fmap_r, Forall_Forall2_diag,
      Forall_forall. intros a Ha. unfold compose. case_decide as Hd; [|done].
    by rewrite (findById_unique i (layers s) l a).
  - unfold toggleLayerLock at 1. rewrite Hf1.
    unfold s1, toggleLayerLock. rewrite Hf.
    apply (updateLayer_back i _ _ now now' s l); try done.
    destruct l. simpl. by rewrite negb_involutive.
Qed.

Lemma toggleLayerLock_twice_witness :
  findById "b"%string
    (layers (toggleLayerLock "b"%string 1 (initialState [layerA; layerB])))
    = Some (spread layerB (lockedOnly (negb (locked layerB)))) ∧
  Forall2 (λ a b, b = if decide (id a = "b"%string)
                      then spread a (lockedOnly (negb (locked a))) else a)
    (layers (initialState [layerA; layerB]))
    (layers (toggleLayerLock "b"%string 1 (initialState [layerA; layerB]))) ∧
  layers (toggleLayerLock "b"%string 2
            (toggleLayerLock "b"%string 1 (initialState [layerA; layerB])))
    = layers (initialState [layerA; layerB]).
Proof.
  refine (toggleLayerLock_twice "b"%string 1 2
            (initialState [layerA; layerB]) layerB _ _).
  - compute_done.
  - reflexivity.
Defined.

(** ** The layer functions of [CityCanvas] and those of the hook *)

(** X12. On the same collection and selection, [addLayer], [removeLayer] and
    [updateLayer] of [CityCanvas] produce the collection that the functions
    of the same name of [useCanvas] produce, and [addLayer] the same id. The
    two [removeLayer] leave the same selection except when the selection
    names the removed id and no layer carries it: the component then resets
    the selection and the hook keeps it. *)
Theorem canvas_functions_agree_with_hook (newLayer : LayerWithoutId)
    (i : string) (updates : PartialLayer) (now now' : Z) (s : State) :
  let c := canvasOf s in
  (canvasAddLayer newLayer now c).1 = (addLayer newLayer now now' s).1 ∧
  c_layers (canvasAddLayer newLayer now c).2 =
    layers (addLayer newLayer now now' s).2 ∧
  c_layers (canvasRemoveLayer i c) = layers (removeLayer i now s) ∧
  c_layers (canvasUpdateLayer i updates c) = layers (updateLayer i updates now s) ∧
  (c_selectedLayerId (canvasRemoveLayer i c) = selectedLayerId (removeLayer i now s)
   ↔ (selectedLayerId s = Some i → i ∈ ids (layers s))).
Proof.
  intros c. split_and!.
  - done.
  - done.
  - by rewrite removeLayer_layers.
  - by rewrite updateLayer_layers_mapAt.
  - rewrite removeLayer_selection. unfold canvasRemoveLayer, c, canvasOf.
    cbn [c_selectedLayerId].
    destruct (decide (selectedLayerId s = Some i)) as [He|Hne].
    + destruct (decide (i ∈ ids (layers s))) as [Hin|Hni].
      * rewrite decide_True by done. tauto.
      * rewrite decide_False by tauto. rewrite He. split; [done|tauto].
    + rewrite decide_False by tauto. tauto.
Qed.

(** ** [renderLayers]: paint order and texture cache *)

Lemma insertByZIndex_filter a l z :
  filter (λ b, zIndex b = z) (insertByZIndex a l) =
    filter (λ b, zIndex b = z) (a :: l).
Proof.
  induction l as [|b l IH]; [done|]. simpl.
  destruct (zIndex a <=? zIndex b) eqn:E; [done|].
  apply Z.leb_gt in E. rewrite filter_cons, IH, !filter_cons.
  repeat case_decide; try done; lia.
Qed.

(** X13. The paint order of a pass is a stable sort of the snapshot: the same
    layers, by ascending [zIndex], those of equal [zIndex] in the order they
    have in the store. *)
Theorem sortByZIndex_stable (ls : list Layer) (z : Z) :
  sortByZIndex ls ≡ₚ ls ∧
  Sorted (λ b c, zIndex b ≤ zIndex c) (sortByZIndex ls) ∧
  filter (λ b, zIndex b = z) (sortByZIndex ls) = filter (λ b, zIndex b = z) ls.
Proof.
  split_and!; [apply sortByZIndex_perm|apply sortByZIndex_sorted|].
  induction ls as [|a ls IH]; [done|]. simpl.
  by rewrite insertByZIndex_filter, !filter_cons, IH.
Qed.

Lemma renderLoop_cache rest : ∀ w w1 o,
  renderLoop rest w = (w1, o) → textureCache w1 = textureCache w.
Proof.
  induction rest as [|layer rest IH]; intros w w1 o Hrun; simpl in Hrun.
  - by injection Hrun as <- <-.
  - destruct (visible layer); [|by eapply IH].
    destruct (textureCache w !! texturePath layer) as [tex|].
    + by rewrite (IH _ _ _ Hrun).
    + by injection Hrun as <- <-.
Qed.

(** The loop stops at the first visible layer whose texture is not cached. *)
Lemma renderLoop_split rest : ∀ w w1 o,
  renderLoop rest w = (w1, o) →
  ∃ before, rest = before ++ leftToRender o ∧
    Forall (λ l, visible l = true → is_Some (textureCache w !! texturePath l))
      before ∧
    (∀ p, o = Some p →
       visible (awaiting p) = true ∧
       textureCache w !! texturePath (awaiting p) = None).
Proof.
  induction rest as [|layer rest IH]; intros w w1 o Hrun; simpl in Hrun.
  - injection Hrun as <- <-. exists []. by split_and!.
  - destruct (visible layer) eqn:Hv.
    + destruct (textureCache w !! texturePath layer) as [tex|] eqn:Hl.
      * destruct (IH _ _ _ Hrun) as (before & -> & Hb & Hp).
        exists (layer :: before). split_and!; [done| |done].
        constructor; [by rewrite Hl|done].
      * injection Hrun as <- <-. exists []. split_and!; [done|done|].
        by intros p [= <-].
    + destruct (IH _ _ _ Hrun) as (before & -> & Hb & Hp).
      exists (layer :: before). split_and!; [done| |done].
      constructor; [by rewrite Hv|done].
Qed.

Lemma renderStep_cache e w :
  cacheCoherent w →
  cacheCoherent (renderStep w e) ∧
  textureCache w ⊆ textureCache (renderStep w e).
Proof.
  intros Hc.
  assert (Hsettle : ∀ k r,
    cacheCoherent (settleLoad k r w) ∧
    textureCache w ⊆ textureCache (settleLoad k r w)).
  { intros k r. unfold settleLoad. destruct (pending w !! k) as [p|]; [|done].
    cbv zeta.
    match goal with
    | |- context [renderLoop ?rest ?w0] =>
      destruct (renderLoop rest w0) as [w2 o] eqn:Hrun
    end.
    apply renderLoop_cache in Hrun. unfold cacheCoherent. simpl.
    rewrite Hrun. destruct r; simpl; [|done].
    split.
    - intros path tex. rewrite lookup_insert. case_decide as Hd.
      + intros [= <-]. by rewrite Hd.
      + apply Hc.
    - apply map_subseteq_spec. intros path tex Hl.
      rewrite lookup_insert. case_decide as Hd; [|done].
      rewrite (Hc _ _ Hl). by rewrite Hd. }
  destruct e as [snapshot|k|k]; simpl; [|apply Hsettle..].
  unfold startPass.
  destruct (renderLoop _ _) as [w1 o] eqn:Hrun.
  apply renderLoop_cache in Hrun. unfold cacheCoherent. simpl. by rewrite Hrun.
Qed.

Lemma renderTrace_cache events : ∀ w,
  cacheCoherent w →
  cacheCoherent (renderTrace events w) ∧
  textureCache w ⊆ textureCache (renderTrace events w).
Proof.
  induction events as [|e events IH]; intros w Hc; [done|]. simpl.
  destruct (renderStep_cache e w Hc) as [Hc1 Hs1].
  destruct (IH _ Hc1) as [Hc2 Hs2]. split; [done|].
  by transitivity (textureCache (renderStep w e)).
Qed.

Lemma cacheCoherent_blank : cacheCoherent blankSurface.
Proof. intros path tex H. simpl in H. by rewrite lookup_empty in H. Qed.

Lemma tracked_blank : tracked blankSurface.
Proof. intros sp H. by apply elem_of_nil in H. Qed.

Lemma sampleSurface_ok :
  pending sampleSurface = [] ∧ tracked sampleSurface ∧
  cacheCoherent sampleSurface.
Proof.
  destruct (pass_alone [layerA] 1 blankSurface eq_refl tracked_blank
              cacheCoherent_blank eq_refl) as (_ & Hc & Ht).
  split_and!; [done|apply Ht; compute_done|done].
Qed.

(** X14. However passes and loads interleave, the texture cache loses no entry
    and changes none: a texture that is cached stays cached, as the texture
    loaded from its path. *)
Theorem textureCache_only_grows (events : list RenderEvent) (w : Surface) :
  cacheCoherent w →
  cacheCoherent (renderTrace events w) ∧
  textureCache w ⊆ textureCache (renderTrace events w).
Proof. apply renderTrace_cache. Qed.

Lemma textureCache_only_grows_witness :
  cacheCoherent (renderTrace [PassStarts [layerB]; LoadResolves 0] sampleSurface) ∧
  textureCache sampleSurface ⊆
    textureCache (renderTrace [PassStarts [layerB]; LoadResolves 0] sampleSurface).
Proof.
  refine (textureCache_only_grows [PassStarts [layerB]; LoadResolves 0]
            sampleSurface _).
  apply sampleSurface_ok.
Defined.

Lemma renderTrace_blank_coherent events :
  cacheCoherent (renderTrace events blankSurface).
Proof. apply renderTrace_cache, cacheCoherent_blank. Qed.

Lemma startPass_spec snapshot w :
  pending w = [] → cacheCoherent w →
  let w' := startPass snapshot w in
  (pending w' = [] ↔
   Forall (λ l, visible l = true → is_Some (textureCache w !! texturePath l))
     snapshot) ∧
  (pending w' = [] →
   shown w' = shown (clearSprites w) ++ rendering snapshot) ∧
  textureCache w' = textureCache w.
Proof.
  intros Hp Hc w'. unfold w', startPass in *.
  destruct (renderLoop (sortByZIndex snapshot) (clearSprites w)) as [w1 o] eqn:Hrun.
  destruct (renderLoop_split _ _ _ _ Hrun) as (before & Hsplit & Hb & Ho).
  destruct (renderLoop_spec _ _ _ _ Hrun Hc) as (Hcache & Hpend & _).
  split_and!; [| |done].
  - simpl. rewrite Hpend. simpl. rewrite Hp. simpl. split.
    + intros Hdone. destruct o as [p|]; [done|]. simpl in Hsplit.
      rewrite app_nil_r in Hsplit. subst before.
      by rewrite <- (sortByZIndex_perm snapshot).
    + intros Hall. destruct o as [p|]; [|done].
      destruct (Ho p eq_refl) as [Hv Hmiss].
      rewrite <- (sortByZIndex_perm snapshot), Hsplit in Hall.
      apply Forall_app in Hall as [_ Hall]. simpl in Hall.
      apply Forall_cons in Hall as [Hhit _]. simpl in Hmiss.
      destruct (Hhit Hv) as [tex Htex]. congruence.
  - intros Hdone.
    by destruct (finish_alone 0 _ _ _ _ Hrun Hc Hp Hdone) as (Hs & _).
Qed.

(** X15. On a surface reached from the blank one by any trace of pass starts
    and load settlements, with no pass suspended, a pass finishes without
    waiting exactly when the texture of every visible layer of its snapshot
    is cached. The stage then shows the sprites that [layersRef] did not
    hold when the pass started (overlapping passes leave such sprites),
    followed by the sprites of the snapshot: one per visible layer, in
    paint order. When [layersRef] held every sprite of the stage, it shows
    the sprites of the snapshot alone. In any case the start of a pass
    leaves the cache as it is. *)
Theorem startPass_waits_iff_uncached (events : list RenderEvent)
    (snapshot : list Layer) :
  let w := renderTrace events blankSurface in
  pending w = [] →
  let w' := startPass snapshot w in
  (pending w' = [] ↔
   Forall (λ l, visible l = true → is_Some (textureCache w !! texturePath l))
     snapshot) ∧
  (pending w' = [] →
   shown w' = shown (clearSprites w) ++ rendering snapshot) ∧
  (tracked w → shown (clearSprites w) = []) ∧
  textureCache w' = textureCache w.
Proof.
  intros w Hp w'.
  destruct (startPass_spec snapshot w Hp (renderTrace_blank_coherent events))
    as (Hiff & Hshown & Hcache).
  split_and!; [done|done| |done].
  intros Ht. unfold shown. by rewrite clearSprites_tracked.
Qed.

Lemma startPass_waits_iff_uncached_witness :
  let w := renderTrace [PassStarts [layerA]; PassStarts [layerA];
                        LoadResolves 0; LoadResolves 0] blankSurface in
  let w' := startPass [layerA] w in
  (pending w' = [] ↔
   Forall (λ l, visible l = true → is_Some (textureCache w !! texturePath l))
     [layerA]) ∧
  (pending w' = [] →
   shown w' = shown (clearSprites w) ++ rendering [layerA]) ∧
  (tracked w → shown (clearSprites w) = []) ∧
  textureCache w' = textureCache w.
Proof.
  refine (startPass_waits_iff_uncached
            [PassStarts [layerA]; PassStarts [layerA];
             LoadResolves 0; LoadResolves 0] [layerA] _).
  reflexivity.
Defined.

(** After two overlapping passes on [a], a pass on [a] finishes at once and
    the stage shows two sprites of [a]: the one that [layersRef] had lost
    and the one of the pass. *)
Lemma pass_after_overlap_keeps_a_sprite :
  let w := renderTrace [PassStarts [layerA]; PassStarts [layerA];
                        LoadResolves 0; LoadResolves 0] blankSurface in
  let w' := startPass [layerA] w in
  pending w = [] ∧ pending w' = [] ∧
  shown (clearSprites w) = [spriteOf layerA] ∧
  shown w' = [spriteOf layerA; spriteOf layerA] ∧
  rendering [layerA] = [spriteOf layerA].
Proof. by vm_compute. Qed.

(** A pass that goes on alone until it has finished leaves the texture of
    every visible layer it had to render in the cache. *)
Lemma finish_alone_cached n : ∀ rest w w1 o,
  renderLoop rest w = (w1, o) → cacheCoherent w → pending w = [] →
  let w' := renderTrace (replicate n (LoadResolves 0)) (suspend o w1) in
  pending w' = [] →
  textureCache w ⊆ textureCache w' ∧
  Forall (λ l, visible l = true → is_Some (textureCache w' !! texturePath l)) rest.
Proof.
  induction n as [|n IH]; intros rest w w1 o Hrun Hc Hp w' Hdone;
    destruct (renderLoop_split _ _ _ _ Hrun) as (before & Hsplit & Hb & Ho);
    pose proof (renderLoop_cache _ _ _ _ Hrun) as Hcache;
    destruct (renderLoop_spec _ _ _ _ Hrun Hc) as (_ & Hpend & _).
  - unfold w' in *. simpl in *. rewrite Hpend, Hp in Hdone.
    destruct o as [p|]; [done|]. simpl in Hsplit. rewrite app_nil_r in Hsplit.
    subst before. by rewrite Hcache.
  - destruct o as [p|].
    + destruct (Ho p eq_refl) as [Hvis Hmiss].
      unfold w' in *. simpl in Hdone |- *.
      unfold settleLoad in Hdone |- *. simpl in Hdone |- *.
      rewrite Hpend, Hp in Hdone |- *. simpl in Hdone |- *.
      set (tex := {| source := texturePath (awaiting p) |}) in *.
      set (w2 := addSprite (awaiting p) tex
                   (cacheTexture (texturePath (awaiting p)) tex (dropPending 0 _)))
        in *.
      destruct (renderLoop (remaining p) w2) as [w3 o3] eqn:Hrun2.
      assert (Hcache2 : textureCache w2 =
                        <[texturePath (awaiting p) := tex]> (textureCache w)).
      { unfold w2. simpl. by rewrite Hcache. }
      assert (Hc2 : cacheCoherent w2).
      { intros path t. rewrite Hcache2, lookup_insert.
        case_decide as Hd; [intros [= <-]; by rewrite <- Hd|apply Hc]. }
      assert (Hp2 : pending w2 = []).
      { unfold w2. simpl. by rewrite Hpend, Hp. }
      destruct (IH _ _ _ _ Hrun2 Hc2 Hp2 Hdone) as (Hsub & Hrest).
      assert (Hsub0 : textureCache w ⊆ textureCache w2).
      { rewrite Hcache2. by apply insert_subseteq. }
      split; [by transitivity (textureCache w2)|].
      rewrite Hsplit. apply Forall_app. split; [|constructor; [|done]].
      * eapply Forall_impl; [exact Hb|]. intros l Hl Hv.
        destruct (Hl Hv) as [t Ht]. exists t.
        eapply lookup_weaken; [exact Ht|]. by transitivity (textureCache w2).
      * intros _. exists tex. eapply lookup_weaken; [|exact Hsub].
        rewrite Hcache2. by rewrite lookup_insert_eq.
    + unfold w' in *. simpl in Hsplit. rewrite app_nil_r in Hsplit. subst before.
      assert (Hp1 : pending (suspend None w1) = []).
      { simpl. by rewrite Hpend, Hp. }
      rewrite renderTrace_no_pending by done. simpl. by rewrite Hcache.
Qed.

(** X16. On a surface reached from the blank one by any trace of events, with
    no pass suspended: once a pass has run alone to its end, all its loads
    resolved, a pass on a snapshot whose visible layers use only textures
    of visible layers of the first one (the collection after a move, a lock
    or a reorder, for instance) waits for no load and adds nothing to the
    cache. The stage then shows the sprites that [layersRef] did not hold
    when the second pass started, followed by the sprites of its snapshot;
    these alone when [layersRef] held every sprite of the stage before the
    first pass and the ids of the first snapshot are pairwise distinct. *)
Theorem next_pass_reuses_textures (events : list RenderEvent)
    (snapshot next : list Layer) (n : nat) :
  let w := renderTrace events blankSurface in
  pending w = [] →
  let w1 := renderTrace (passAlone snapshot n) w in
  pending w1 = [] →
  Forall (λ l, visible l = true →
               texturePath l ∈
                 texturePath <$> filter (λ l0, visible l0 = true) snapshot) next →
  let w2 := startPass next w1 in
  pending w2 = [] ∧
  shown w2 = shown (clearSprites w1) ++ rendering next ∧
  (tracked w → NoDup (ids snapshot) → shown w2 = rendering next) ∧
  textureCache w2 = textureCache w1.
Proof.
  intros w Hp w1 Hdone Hnext w2.
  pose proof (renderTrace_blank_coherent events) as Hc. fold w in Hc.
  assert (Hc1 : cacheCoherent w1).
  { unfold w1. by apply renderTrace_cache. }
  assert (Hcached : Forall (λ l, visible l = true →
                       is_Some (textureCache w1 !! texturePath l)) snapshot).
  { unfold w1, passAlone in *. simpl in *. unfold startPass in *.
    destruct (renderLoop (sortByZIndex snapshot) (clearSprites w))
      as [w0 o] eqn:Hrun.
    destruct (finish_alone_cached n _ _ _ _ Hrun) as [_ H]; try done.
    by rewrite <- (sortByZIndex_perm snapshot). }
  destruct (startPass_spec next w1 Hdone Hc1) as (Hiff & Hshown & Hcache).
  assert (Hfin : pending w2 = []).
  { apply Hiff. eapply Forall_impl; [exact Hnext|]. intros l Hl Hv.
    pose proof (Hl Hv) as Hin.
    apply list_elem_of_fmap in Hin as (l0 & -> & [Hv0 Hin]%list_elem_of_filter).
    rewrite Forall_forall in Hcached. by apply Hcached. }
  split_and!; [done|by apply Hshown| |done].
  intros Ht Hnd.
  destruct (pass_alone snapshot n w Hp Ht Hc Hdone) as (_ & _ & Ht1).
  unfold w2. rewrite (Hshown Hfin). unfold shown at 1.
  by rewrite (clearSprites_tracked w1 (Ht1 Hnd)).
Qed.

Lemma next_pass_reuses_textures_witness :
  let w := renderTrace [] blankSurface in
  let w1 := renderTrace (passAlone [layerA; layerA] 1) w in
  let w2 := startPass [layerB] w1 in
  pending w2 = [] ∧
  shown w2 = shown (clearSprites w1) ++ rendering [layerB] ∧
  (tracked w → NoDup (ids [layerA; layerA]) → shown w2 = rendering [layerB]) ∧
  textureCache w2 = textureCache w1.
Proof.
  refine (next_pass_reuses_textures [] [layerA; layerA] [layerB] 1 _ _ _).
  - reflexivity.
  - reflexivity.
  - compute_done.
Defined.

(** A pass alone on a snapshot that holds the id of [a] twice leaves a
    sprite that [layersRef] does not hold; the pass on [b] that follows
    keeps it on the stage beside the sprite of [b]. *)
Lemma pass_after_duplicate_ids_keeps_a_sprite :
  let w1 := renderTrace (passAlone [layerA; layerA] 1) blankSurface in
  let w2 := startPass [layerB] w1 in
  pending w1 = [] ∧ pending w2 = [] ∧
  shown w2 = [spriteOf layerA; spriteOf layerB] ∧
  rendering [layerB] = [spriteOf layerB].
Proof. by vm_compute. Qed.

(** ** [renderLayers]: what reaches the stage *)

Lemma madeFrom_mono known known' w :
  known ⊆ known' → madeFrom known w → madeFrom known' w.
Proof.
  intros Hsub (Hc & Hs & Hp). split_and!; [done| |].
  - eapply Forall_impl; [exact Hs|].
    intros sp (layer & Hin & Hv & ->). exists layer. split_and!; auto.
  - eapply Forall_impl; [exact Hp|].
    intros p (Hv & Hin & Hrem). split_and!; [done|auto|].
    by transitivity known.
Qed.

Lemma renderLoop_madeFrom known rest : ∀ w w1 o,
  renderLoop rest w = (w1, o) → rest ⊆ known → madeFrom known w →
  madeFrom known (suspend o w1).
Proof.
  induction rest as [|layer rest IH]; intros w w1 o Hrun Hsub (Hc & Hs & Hp);
    simpl in Hrun.
  - injection Hrun as <- <-. split_and!; [done|done|].
    simpl. by rewrite app_nil_r.
  - assert (Hin : layer ∈ known) by (apply Hsub; by left).
    assert (Hsub' : rest ⊆ known).
    { intros l Hl. apply Hsub. by right. }
    destruct (visible layer) eqn:Hv.
    + destruct (textureCache w !! texturePath layer) as [tex|] eqn:Hl.
      * apply (IH _ _ _ Hrun Hsub'). split_and!; [done| |done].
        rewrite shown_addSprite. apply Forall_app. split; [done|].
        constructor; [|done]. exists layer. split_and!; [done|done|].
        by rewrite (Hc _ _ Hl).
      * injection Hrun as <- <-. split_and!; [done|done|].
        simpl. apply Forall_app. split; [done|]. by constructor.
    + apply (IH _ _ _ Hrun Hsub'). by split_and!.
Qed.

Lemma clearSprites_madeFrom known w :
  madeFrom known w → madeFrom known (clearSprites w).
Proof.
  intros (Hc & Hs & Hp). split_and!; [done| |done].
  unfold shown in *. simpl. rewrite Forall_fmap in Hs |- *.
  rewrite Forall_forall in Hs |- *. intros sp [_ Hin]%list_elem_of_filter.
  by apply Hs.
Qed.

Lemma renderStep_madeFrom known e w :
  madeFrom known w → madeFrom (known ++ snapshotsOf [e]) (renderStep w e).
Proof.
  intros Hm.
  assert (Hsettle : ∀ k r, madeFrom known (settleLoad k r w)).
  { intros k r. unfold settleLoad.
    destruct (pending w !! k) as [p|] eqn:Hk; [|done]. cbv zeta.
    match goal with
    | |- context [renderLoop ?rest ?w0] =>
      destruct (renderLoop rest w0) as [w2 o] eqn:Hrun
    end.
    destruct Hm as (Hc & Hs & Hp).
    pose proof (Forall_lookup_1 _ _ _ _ Hp Hk) as (Hv & Hin & Hrem).
    assert (Hp' : Forall (λ p, visible (awaiting p) = true ∧ awaiting p ∈ known ∧
                              remaining p ⊆ known) (delete k (pending w))).
    { by apply Forall_delete. }
    apply (renderLoop_madeFrom known _ _ _ _ Hrun Hrem).
    destruct r.
    - split_and!.
      + intros path tex. simpl. rewrite lookup_insert.
        case_decide as Hd; [intros [= <-]; by rewrite Hd|apply Hc].
      + rewrite shown_addSprite. apply Forall_app. split; [done|].
        constructor; [|done]. by exists (awaiting p).
      + done.
    - by split_and!. }
  destruct e as [snapshot|k|k]; simpl; rewrite ?app_nil_r; [|apply Hsettle..].
  unfold startPass.
  destruct (renderLoop _ _) as [w1 o] eqn:Hrun.
  apply (renderLoop_madeFrom _ _ _ _ _ Hrun).
  - intros l Hl. apply elem_of_app. right.
    by rewrite <- (sortByZIndex_perm snapshot).
  - apply clearSprites_madeFrom. eapply madeFrom_mono; [|exact Hm].
    intros l Hl. apply elem_of_app. by left.
Qed.

Lemma renderTrace_madeFrom events : ∀ known w,
  madeFrom known w → madeFrom (known ++ snapshotsOf events) (renderTrace events w).
Proof.
  induction events as [|e events IH]; intros known w Hm.
  - simpl. by rewrite app_nil_r.
  - simpl renderTrace.
    replace (known ++ snapshotsOf (e :: events))
      with ((known ++ snapshotsOf [e]) ++ snapshotsOf events).
    + apply IH. by apply renderStep_madeFrom.
    + rewrite <- (assoc_L (++)). f_equal.
      destruct e; simpl; by rewrite ?app_nil_r.
Qed.

(** X17. However passes and loads interleave, and whether loads resolve or fail,
    every sprite on the stage is the sprite of a visible layer of one of the
    snapshots a pass has started on: a hidden layer and a layer that was in
    no snapshot never get one. *)
Theorem only_visible_layers_are_shown (events : list RenderEvent) :
  Forall (λ sp, ∃ layer, layer ∈ snapshotsOf events ∧ visible layer = true ∧
                         sp = spriteOf layer)
    (shown (renderTrace events blankSurface)).
Proof.
  destruct (renderTrace_madeFrom events [] blankSurface) as (_ & Hs & _).
  - split_and!; [apply cacheCoherent_blank|constructor|constructor].
  - exact Hs.
Qed.

(** ** Placing assets: [handleCanvasClick] *)




Lemma sortByZIndex_of_sorted ls :
  Sorted (λ b c, zIndex b ≤ zIndex c) ls → sortByZIndex ls = ls.
Proof.
  induction ls as [|a ls IH]; intros Hs; [done|].
  apply Sorted_inv in Hs as [Hs Hhd]. simpl. rewrite (IH Hs).
  destruct ls as [|b ls]; [done|]. apply HdRel_inv in Hhd. simpl.
  by rewrite (proj2 (Z.leb_le _ _) Hhd).
Qed.



(** After two removals the count of layers is below the [zIndex] of the
    layer that is left, and the next asset placed is painted under it. *)
Lemma click_after_removals_is_below :
  let s0 := clickAll [(Some "house"%string, origin, 1, 1);
                      (Some "tree"%string, origin, 2, 2);
                      (Some "dog"%string, origin, 3, 3)] (initialState []) in
  let s1 := removeLayer (layerIdAt 2) 5 (removeLayer (layerIdAt 1) 4 s0) in
  let s2 := handleCanvasClick (Some "cat"%string) origin 6 6 s1 in
  type <$> layers s2 = ["dog"%string; "cat"%string] ∧
  type <$> sortByZIndex (layers s2) = ["cat"%string; "dog"%string].
Proof. by vm_compute. Qed.




(** ** The storage bar *)

(** X20. [removeFromStorage] with the id that [addToStorage] has just assigned
    gives the storage back exactly when no item carried that id before: an
    item added at the same clock reading is removed with it. *)
Theorem removeFromStorage_addToStorage (t : string) (version now : Z)
    (storageItems : list StorageItem) :
  removeFromStorage (storageIdAt now) (addToStorage t version now storageItems)
    = storageItems ↔
  storageIdAt now ∉ st_id <$> storageItems.
Proof.
  unfold removeFromStorage, addToStorage. rewrite filter_app.
  rewrite filter_cons_False by (simpl; tauto). rewrite filter_nil, app_nil_r.
  split.
  - intros Heq (item & Hid & Hin)%list_elem_of_fmap.
    rewrite <- Heq in Hin. apply list_elem_of_filter in Hin as [Hne _].
    by apply Hne.
  - intros Hni. induction storageItems as [|item items IH]; [done|].
    rewrite fmap_cons, not_elem_of_cons in Hni. destruct Hni as [Hne Hni].
    rewrite filter_cons_True by done. by rewrite IH.
Qed.
